(** * account_ids.py: organisation tree resolution and Terraform code generation

    A shallow embedding of [resources/python/account_ids.py] and the
    properties of its account resolver, value formatter, code generators and
    per-module deployment loop.

    Conventions of the embedding:
    - Python [str] is [string]; the script writes its artefacts with
      [encoding='us-ascii'], so characters are ASCII and [str.lower] is the
      ASCII lower-casing.
    - A Python [dict] is an insertion-ordered association list ([odict]):
      assigning to a key that is present keeps the key at its position,
      assigning to a fresh key appends it.  A well-formed dict has pairwise
      distinct keys ([NoDup (odict.keys d)]).
    - A raised exception is the [Raise] case of [result].
    - Objects that are mutated in place and shared between variables (the
      organisation tree) live in a [heap] of the [world]; variables hold
      locations. *)

From stdpp Require Import base list strings.
From Stdlib Require Import ZArith Ascii Numbers.DecimalString.

(** ** Python values and exceptions *)

Inductive exn : Type :=
| TypeError
| Exception (msg : string).

Inductive result (A : Type) : Type :=
| Ok (a : A)
| Raise (e : exn).

Arguments Ok {A} a.
Arguments Raise {A} e.

Definition rbind {A B} (r : result A) (k : A → result B) : result B :=
  match r with
  | Ok a => k a
  | Raise e => Raise e
  end.

Notation "'let*' x := r 'in' k" := (rbind r (fun x => k))
  (at level 10, x name, r at level 100, k at level 200).

(** [foldM] is a [for] loop whose body may raise: the exception leaves the
    loop at once. *)
Fixpoint foldM {A B} (body : A → B → result A) (xs : list B) (a : A) : result A :=
  match xs with
  | [] => Ok a
  | x :: xs' => let* a' := body a x in foldM body xs' a'
  end.

(** [mapM f] evaluates [f] on every element, left to right.  It is a local
    [fix] so that a recursive function can map itself over its children. *)
Definition mapM {A B} (f : A → result B) : list A → result (list B) :=
  fix go (xs : list A) : result (list B) :=
    match xs with
    | [] => Ok []
    | x :: xs' => let* y := f x in let* ys := go xs' in Ok (y :: ys)
    end.

(** ** Strings *)

Definition lower_ascii (c : ascii) : ascii :=
  let n := nat_of_ascii c in
  if ((65 <=? n) && (n <=? 90))%nat then ascii_of_nat (n + 32) else c.

(** [s.lower()] *)
Fixpoint lower (s : string) : string :=
  match s with
  | EmptyString => EmptyString
  | String c s' => String (lower_ascii c) (lower s')
  end.

(** [s.startswith(p)] *)
Definition startswith (s p : string) : bool := String.prefix p s.

(** [s * n] *)
Fixpoint str_mul (s : string) (n : nat) : string :=
  match n with
  | O => ""
  | S n' => s +:+ str_mul s n'
  end.

(** [s[:-2]] *)
Definition drop_last2 (s : string) : string :=
  String.substring 0 (String.length s - 2) s.

(** [str(z)] for an [int] *)
Definition str_int (z : Z) : string := NilZero.string_of_int (Z.to_int z).

(** [sep.join(parts)] is [String.concat sep parts]. *)

(** ** Insertion-ordered dictionaries *)

Module odict.

Definition t (V : Type) : Type := list (string * V).

Definition empty {V} : t V := [].

(** [d.get(k)] *)
Fixpoint get {V} (k : string) (d : t V) : option V :=
  match d with
  | [] => None
  | (k', v) :: d' => if decide (k = k') then Some v else get k d'
  end.

(** [d[k] = v] *)
Fixpoint set {V} (k : string) (v : V) (d : t V) : t V :=
  match d with
  | [] => [(k, v)]
  | (k', v') :: d' =>
      if decide (k = k') then (k', v) :: d' else (k', v') :: set k v d'
  end.

Definition keys {V} (d : t V) : list string := d.*1.
Definition items {V} (d : t V) : list (string * V) := d.

(** [d.update(d2)] *)
Definition update {V} (d d2 : t V) : t V :=
  foldl (λ acc kv, set kv.1 kv.2 acc) d (items d2).

(** [k in d] *)
Definition mem {V} (k : string) (d : t V) : bool :=
  bool_decide (k ∈ keys d).

End odict.

(** ** Accounts and the organisation tree *)

(** The account dictionaries returned by the Organizations API; the script
    reads only ["Name"] and ["Id"]. *)
Record account : Type := Account { Name : string; Id : string }.

(** OU path ↦ accounts directly inside that OU. *)
Definition OrgTree : Type := odict.t (list account).

(** Every account of the tree, in iteration order of the OUs. *)
Definition flatten (tree : OrgTree) : list account :=
  concat (tree.*2).

(** [x in xs] for a Python list *)
Definition py_in (x : string) (xs : list string) : bool := bool_decide (x ∈ xs).

(** [xs.remove(x)]: drops the first occurrence. *)
Fixpoint py_remove (x : string) (xs : list string) : list string :=
  match xs with
  | [] => []
  | y :: xs' => if decide (x = y) then xs' else y :: py_remove x xs'
  end.

(** *** filter_excluded_accounts

    The loop assigns the rebuilt list to every key of the dictionary it is
    given; the value below is the content of that dictionary when the loop
    ends.  (That the assignment happens inside the caller's object is
    modelled by [filter_excluded_accounts_ref] further down.) *)
Definition kept (ou : string) (excluded_accounts : list string) (acc : account) : bool :=
  negb (py_in ou excluded_accounts || py_in (Name acc) excluded_accounts).

Definition filter_excluded_accounts
    (org_account_list : OrgTree) (excluded_accounts : list string) : OrgTree :=
  foldl
    (λ d '(ou, account),
       odict.set ou (List.filter (kept ou excluded_accounts) account) d)
    org_account_list (odict.items org_account_list).

(** *** account_ids_from_ou

    [ou_with_all_accounts.get(ou)] is [None] for an absent path and the
    inner [for] then raises [TypeError] ('NoneType' object is not iterable). *)
Definition record_account (accounts : odict.t string) (account_data : account)
    : odict.t string :=
  odict.set (Name account_data) (Id account_data) accounts.

Definition account_ids_from_ou
    (ou_target_accounts : list string) (ou_with_all_accounts : OrgTree)
    : result (odict.t string) :=
  foldM
    (λ accounts ou,
       match odict.get ou ou_with_all_accounts with
       | None => Raise TypeError
       | Some account_list => Ok (foldl record_account accounts account_list)
       end)
    ou_target_accounts odict.empty.

(** *** account_ids_from_name

    The function removes matched names from the list it was given; the
    second component is that list when the function returns. *)
Definition match_account (st : odict.t string * list string) (account : account)
    : odict.t string * list string :=
  let '(deployment_accounts, deployment_target_accounts) := st in
  let account_name := Name account in
  if py_in account_name deployment_target_accounts
  then (odict.set account_name (Id account) deployment_accounts,
        py_remove account_name deployment_target_accounts)
  else st.

Definition account_ids_from_name
    (deployment_target_accounts : list string) (ou_org_accounts : OrgTree)
    : odict.t string * list string :=
  foldl
    (λ st ou,
       foldl match_account st (default [] (odict.get ou ou_org_accounts)))
    (odict.empty, deployment_target_accounts)
    (odict.keys ou_org_accounts).

(** ** The value formatter *)

(** The double-quote and line-feed characters. *)
Definition dq : string := String "034"%char EmptyString.
Definition nl : string := String "010"%char EmptyString.

(** [builder += line] for each line in turn. *)
Definition emit (builder : string) (lines : list string) : string :=
  foldl String.append builder lines.

(** What the YAML loader hands over as a variable value; [VOther] stands for
    every Python object that is no [str], [bool], [int], [list] or [dict]
    ([None], a float, a date). *)
#[warnings="-register-all"]
Inductive value : Type :=
| VStr (s : string)
| VBool (b : bool)
| VInt (z : Z)
| VList (vs : list value)
| VDict (kvs : list (string * value))
| VOther.

(** What [format_value] returns: a [str], or the [int] itself. *)
Inductive pyobj : Type :=
| PStr (s : string)
| PInt (z : Z).

(** [f"{o}"] *)
Definition str (o : pyobj) : string :=
  match o with
  | PStr s => s
  | PInt z => str_int z
  end.

(** [str(b)] *)
Definition str_bool (b : bool) : string := if b then "True" else "False".

(** [sep.join(parts)]: raises [TypeError] on an item that is not a [str]
    ("sequence item 0: expected str instance, int found"). *)
Definition expect_str (o : pyobj) : result string :=
  match o with
  | PStr s => Ok s
  | PInt _ => Raise TypeError
  end.

Definition join (sep : string) (parts : list pyobj) : result string :=
  let* strs := mapM expect_str parts in Ok (String.concat sep strs).

(** [isinstance(v, (dict, list))] *)
Definition is_container (v : value) : bool :=
  match v with
  | VList _ | VDict _ => true
  | _ => false
  end.

Fixpoint format_value (value : value) (indent : nat) {struct value} : result pyobj :=
  match value with
  | VStr s =>
      if startswith s "module." then Ok (PStr s)
      else Ok (PStr (dq +:+ s +:+ dq))
  | VBool b => Ok (PStr (lower (str_bool b)))
  | VInt z => Ok (PInt z)
  | VList vs =>
      if forallb (λ v, negb (is_container v)) vs then
        let indent := S indent in
        let* parts := mapM (λ v, format_value v indent) vs in
        let* inner := join ", " parts in
        Ok (PStr ("[" +:+ inner +:+ "]"))
      else
        let indent := S indent in
        let indent_space := str_mul "  " indent in
        let* lines :=
          mapM (λ v, let* f := format_value v indent in
                     Ok (indent_space +:+ "  " +:+ str f)) vs in
        let inner := String.concat ("," +:+ nl) lines in
        Ok (PStr ("[" +:+ nl +:+ inner +:+ nl +:+ indent_space +:+ "]"))
  | VDict kvs =>
      let indent := S indent in
      let indent_space := str_mul "  " indent in
      let* lines :=
        mapM (λ kv, let* f := format_value kv.2 indent in
                    Ok (indent_space +:+ "  " +:+ kv.1 +:+ " = " +:+ str f)) kvs in
      let inner := String.concat nl lines in
      Ok (PStr ("{" +:+ nl +:+ inner +:+ nl +:+ indent_space +:+ "}"))
  | VOther => Raise TypeError
  end.

(** ** The world the script acts on *)

Definition loc : Type := nat.

(** - [heap]: the organisation-tree objects, by location;
    - [ALL_REGIONS]: the module-level set, as the sequence in which
      iterating it yields its elements;
    - [files]: the calls [write_to_file(content, output_file)] made so far,
      oldest first, as pairs (output_file, content). *)
Record world : Type := World {
  heap : list OrgTree;
  ALL_REGIONS : list string;
  files : list (string * string)
}.

Definition set_heap (h : list OrgTree) (w : world) : world :=
  World h (ALL_REGIONS w) (files w).
Definition set_ALL_REGIONS (rs : list string) (w : world) : world :=
  World (heap w) rs (files w).

Definition write_to_file (content output_file : string) (w : world) : world :=
  World (heap w) (ALL_REGIONS w) (files w ++ [(output_file, content)]).

(** The object stored at a location. *)
Definition deref (w : world) (l : loc) : OrgTree := default [] (heap w !! l).

(** [copy.deepcopy(obj)]: a fresh object with the same content. *)
Definition deepcopy (l : loc) (w : world) : loc * world :=
  (length (heap w), set_heap (heap w ++ [deref w l]) w).

(** [filter_excluded_accounts] as called: it rebuilds the lists inside the
    object it is given and returns that same object. *)
Definition filter_excluded_accounts_ref
    (org_account_list : loc) (excluded_accounts : list string) (w : world)
    : loc * world :=
  (org_account_list,
   set_heap
     (<[org_account_list :=
          filter_excluded_accounts (deref w org_account_list) excluded_accounts]>
        (heap w))
     w).

(** ** Code generation *)

(** *** create_provider_code *)
Definition provider_step (region : string)
    (provider_code_string_builder : string) (item : string * string) : string :=
  let '(account_name, account_id) := item in
  if decide (account_name = "Management") then
    emit provider_code_string_builder
      [ "provider " +:+ dq +:+ "aws" +:+ dq +:+ " {" +:+ nl;
        "  region = " +:+ dq +:+ region +:+ dq +:+ nl;
        "}" +:+ nl;
        nl ]
  else
    let account_name := lower account_name in
    emit provider_code_string_builder
      [ "provider " +:+ dq +:+ "aws" +:+ dq +:+ " {" +:+ nl;
        "  assume_role {" +:+ nl;
        "    role_arn = " +:+ dq +:+ "arn:aws:iam::" +:+ account_id
          +:+ ":role/OrganizationAccountAccessRole" +:+ dq +:+ nl;
        "  }" +:+ nl;
        "  alias  = " +:+ dq +:+ region +:+ "-" +:+ account_name +:+ dq +:+ nl;
        "  region = " +:+ dq +:+ region +:+ dq +:+ nl;
        "}" +:+ nl;
        nl ].

Definition create_provider_code
    (regions : list string) (account_ids_by_name : odict.t string) (w : world)
    : string * world :=
  let provider_code_string_builder :=
    foldl
      (λ builder region,
         foldl (provider_step region) builder (odict.items account_ids_by_name))
      "" regions in
  (provider_code_string_builder,
   write_to_file provider_code_string_builder "terraform/provider.tf" w).

(** *** create_module_code *)
Record variable : Type := Var { var_name : string; var_value : value }.

Definition variable_step (module_code : string) (var : variable) : result string :=
  let* formatted_value := format_value (var_value var) 0 in
  Ok (module_code +:+
        ("  " +:+ var_name var +:+ " = " +:+ str formatted_value +:+ nl)).

Definition module_step
    (module_name module_source : string) (variables : list variable)
    (module_dependencies : list string) (region : string)
    (module_code : string) (item : string * string) : result string :=
  let account_name := lower item.1 in
  let module_code :=
    emit module_code
      [ "module " +:+ dq +:+ module_name +:+ "-" +:+ region +:+ "-"
          +:+ account_name +:+ dq +:+ " {" +:+ nl;
        "  source = " +:+ dq +:+ module_source +:+ dq +:+ nl ] in
  let* module_code := foldM variable_step variables module_code in
  let module_code :=
    if decide (account_name ≠ "management") then
      module_code +:+
        ("  providers = {" +:+ nl +:+ "    aws = aws." +:+ region +:+ "-"
           +:+ account_name +:+ nl +:+ "    }" +:+ nl)
    else module_code in
  let dependencies := module_dependencies in
  let module_code :=
    match dependencies with
    | [] => module_code
    | _ :: _ =>
        let module_code := module_code +:+ "  depends_on = [ " in
        let module_code :=
          foldl
            (λ code dependent,
               code +:+ ("module." +:+ dependent +:+ "-" +:+ region +:+ ", "))
            module_code dependencies in
        drop_last2 module_code +:+ (" ]" +:+ nl)
    end in
  Ok (emit module_code [ "}" +:+ nl; nl ]).

Definition create_module_code
    (module_name module_source : string) (deployment_account_ids : odict.t string)
    (regions : list string) (variables : list variable)
    (module_dependencies : list string) (w : world) : result string * world :=
  let built :=
    foldM
      (λ module_code region,
         foldM
           (module_step module_name module_source variables
              module_dependencies region)
           (odict.items deployment_account_ids) module_code)
      regions "" in
  match built with
  | Ok module_code =>
      (Ok module_code,
       write_to_file module_code ("terraform/" +:+ module_name +:+ ".tf") w)
  | Raise e => (Raise e, w)
  end.

(** ** The deployment loop *)

(** One entry of [terraformModules] in the YAML file.  A key whose value is
    missing or empty ([dependsOn], [variables], a list of
    [deploymentTargets]) is the empty list: the script tests these values
    for truth only. *)
Record tf_module : Type := TfModule {
  name : string;
  source : string;
  regions : list string;
  variables : list variable;
  dependsOn : list string;
  deploymentTargets : odict.t (list string)
}.

(** How one pass of the loop over [tf_modules] ends: it falls through to
    the next module, it leaves [deploy_targets] through
    [return logger.exception(...)], or an exception escapes. *)
Inductive flow : Type :=
| Next
| Return (e : exn)
| Uncaught (e : exn).

Section deploy.

(** [ALL_REGIONS.add(region)].  The order in which a Python set yields
    its elements is not specified, so the operation is a parameter of the
    development; only what it does to membership is assumed where a
    proof needs it. *)
Variable set_add : string → list string → list string.

Definition add_regions (regions : list string) (w : world) : world :=
  set_ALL_REGIONS (foldl (λ all region, set_add region all) (ALL_REGIONS w) regions) w.

(** The [if "excludedAccounts" in deployment_target] block; the result is
    the object [all_org_accounts_copy] is bound to afterwards. *)
Definition exclude_step
    (ou_with_all_accounts all_org_accounts_copy : loc)
    (deployment_target : odict.t (list string)) (w : world) : loc * world :=
  if odict.mem "excludedAccounts" deployment_target then
    let excluded_accounts :=
      default [] (odict.get "excludedAccounts" deployment_target) in
    match excluded_accounts with
    | _ :: _ =>
        filter_excluded_accounts_ref ou_with_all_accounts excluded_accounts w
    | [] => (all_org_accounts_copy, w)
    end
  else (all_org_accounts_copy, w).

(** One turn of [for target in deployment_target: match target: ...]. *)
Definition resolve_target
    (deployment_target : odict.t (list string)) (tree : OrgTree)
    (deployment_target_accounts : odict.t string) (target : string)
    : result (odict.t string) :=
  if decide (target = "organizationalUnits") then
    let ou_target_accounts :=
      default [] (odict.get "organizationalUnits" deployment_target) in
    match ou_target_accounts with
    | _ :: _ =>
        let* found := account_ids_from_ou ou_target_accounts tree in
        Ok (odict.update deployment_target_accounts found)
    | [] => Ok deployment_target_accounts
    end
  else if decide (target = "accounts") then
    let account_targets :=
      default [] (odict.get "accounts" deployment_target) in
    match account_targets with
    | _ :: _ =>
        Ok (odict.update deployment_target_accounts
              (account_ids_from_name account_targets tree).1)
    | [] => Ok deployment_target_accounts
    end
  else Ok deployment_target_accounts.

(** [for dependent in dependencies: if dependent not in all_modules: raise] *)
Definition validate_dependencies
    (module_name : string) (dependencies all_modules : list string)
    : result unit :=
  foldM
    (λ _ dependent,
       if py_in dependent all_modules then Ok tt
       else Raise (Exception
              ("dependencies defined in the yaml for tf module '"
                 +:+ module_name +:+ "' which don't exist")))
    dependencies tt.

(** The body of [for tf_module in tf_modules]. *)
Definition module_pass
    (ou_with_all_accounts : loc) (account_ids_by_name : odict.t string)
    (all_modules : list string) (tf_module : tf_module) (w : world)
    : flow * world :=
  let deployment_target_accounts : odict.t string := odict.empty in
  let deployment_target := deploymentTargets tf_module in
  let module_name := name tf_module in
  let module_source := source tf_module in
  let regions := regions tf_module in
  let w := add_regions regions w in
  let variable_inputs := variables tf_module in
  let dependencies := dependsOn tf_module in
  let '(all_org_accounts_copy, w) := deepcopy ou_with_all_accounts w in
  let '(all_org_accounts_copy, w) :=
    exclude_step ou_with_all_accounts all_org_accounts_copy deployment_target w in
  match
    foldM (resolve_target deployment_target (deref w all_org_accounts_copy))
      (odict.keys deployment_target) deployment_target_accounts
  with
  | Raise e => (Return e, w)
  | Ok deployment_target_accounts =>
      match validate_dependencies module_name dependencies all_modules with
      | Raise e => (Return e, w)
      | Ok _ =>
          let '(_, w) :=
            create_provider_code (ALL_REGIONS w) account_ids_by_name w in
          match
            create_module_code module_name module_source
              deployment_target_accounts regions variable_inputs dependencies w
          with
          | (Ok _, w) => (Next, w)
          | (Raise e, w) => (Uncaught e, w)
          end
      end
  end.

Fixpoint module_loop
    (ou_with_all_accounts : loc) (account_ids_by_name : odict.t string)
    (all_modules : list string) (tf_modules : list tf_module) (w : world)
    : flow * world :=
  match tf_modules with
  | [] => (Next, w)
  | tf_module :: rest =>
      match module_pass ou_with_all_accounts account_ids_by_name all_modules
              tf_module w with
      | (Next, w') =>
          module_loop ou_with_all_accounts account_ids_by_name all_modules rest w'
      | stop => stop
      end
  end.

(** The name ↦ id mapping of the whole organisation, built before the
    loop. *)
Definition all_account_ids (tree : OrgTree) : odict.t string :=
  foldl (λ ids kv, foldl record_account ids kv.2) odict.empty (odict.items tree).

(** [deploy_targets]; [built] is what [get_all_accounts_recursive]
    returned, a fresh object that [ou_with_all_accounts] is bound to. *)
Definition deploy_targets
    (built : OrgTree) (tf_modules : list tf_module) (w : world) : flow * world :=
  let ou_with_all_accounts : loc := length (heap w) in
  let w := set_heap (heap w ++ [built]) w in
  let account_ids_by_name := all_account_ids (deref w ou_with_all_accounts) in
  let all_modules := name <$> tf_modules in
  module_loop ou_with_all_accounts account_ids_by_name all_modules tf_modules w.

End deploy.

(** An insertion-ordered instance of [ALL_REGIONS.add], used to run the
    model on concrete inputs. *)
Definition set_add_ordered (region : string) (all : list string) : list string :=
  if decide (region ∈ all) then all else all ++ [region].

(** ** Reference definitions used in the statements *)

(** Concatenation of text fragments. *)
Definition strcat (parts : list string) : string := foldr String.append "" parts.

(** The first and the last account of a sequence carrying a given name. *)
Definition first_named (n : string) (accounts : list account) : option account :=
  head (filter (λ a, Name a = n) accounts).
Definition last_named (n : string) (accounts : list account) : option account :=
  last (filter (λ a, Name a = n) accounts).

(** The (name, id) pair of an account. *)
Definition name_id (a : account) : string * string := (Name a, Id a).

(** Number of positions of [hay] at which [needle] starts. *)
Fixpoint occurrences (needle hay : string) : nat :=
  (if String.prefix needle hay then 1 else 0) +
  match hay with
  | EmptyString => 0
  | String _ hay' => occurrences needle hay'
  end.

(** ** The generated text, block by block

    These definitions follow the wording of the design document; the
    theorems below compare them with what the generators build. *)

(** The provider block of one (region, account) pair. *)
Definition provider_block (region account_name account_id : string) : string :=
  if decide (account_name = "Management") then
    strcat [ "provider "; dq; "aws"; dq; " {"; nl;
             "  region = "; dq; region; dq; nl;
             "}"; nl;
             nl ]
  else
    strcat [ "provider "; dq; "aws"; dq; " {"; nl;
             "  assume_role {"; nl;
             "    role_arn = "; dq; "arn:aws:iam::"; account_id;
               ":role/OrganizationAccountAccessRole"; dq; nl;
             "  }"; nl;
             "  alias  = "; dq; region; "-"; lower account_name; dq; nl;
             "  region = "; dq; region; dq; nl;
             "}"; nl;
             nl ].

(** The provider blocks of all pairs, regions outer, accounts inner. *)
Definition provider_blocks
    (regions : list string) (account_ids_by_name : odict.t string) : string :=
  strcat (region ← regions;
          (λ item, provider_block region item.1 item.2)
            <$> odict.items account_ids_by_name).

(** One line per declared variable, in declared order. *)
Definition variable_line (var : variable) : result string :=
  let* formatted := format_value (var_value var) 0 in
  Ok (strcat [ "  "; var_name var; " = "; str formatted; nl ]).

Definition variable_lines (variables : list variable) : result string :=
  let* lines := mapM variable_line variables in Ok (strcat lines).

(** The line of a variable whose value [format_value] rendered as
    [formatted]. *)
Definition rendered_line (var : variable) (formatted : pyobj) : string :=
  strcat [ "  "; var_name var; " = "; str formatted; nl ].

(** The provider alias reference, left out for the management account. *)
Definition providers_reference (region account_name : string) : string :=
  if decide (lower account_name = "management") then ""
  else strcat [ "  providers = {"; nl;
                "    aws = aws."; region; "-"; lower account_name; nl;
                "    }"; nl ].

(** The single [depends_on] list: one entry per dependency, named by the
    region only. *)
Definition depends_on_entry (region dependency : string) : string :=
  strcat [ "module."; dependency; "-"; region ].

Definition depends_on_line (dependencies : list string) (region : string) : string :=
  match dependencies with
  | [] => ""
  | _ :: _ =>
      strcat [ "  depends_on = [ ";
               String.concat ", " (depends_on_entry region <$> dependencies);
               " ]"; nl ]
  end.

(** The module block of one (region, account) pair. *)
Definition module_block
    (module_name module_source lines : string) (dependencies : list string)
    (region account_name : string) : string :=
  strcat [ "module "; dq; module_name; "-"; region; "-"; lower account_name;
             dq; " {"; nl;
           "  source = "; dq; module_source; dq; nl;
           lines;
           providers_reference region account_name;
           depends_on_line dependencies region;
           "}"; nl;
           nl ].

(** The module blocks of all pairs; the variables are formatted only when
    there is a pair to emit. *)
Definition module_blocks
    (module_name module_source : string) (deployment_account_ids : odict.t string)
    (regions : list string) (variables : list variable)
    (dependencies : list string) : result string :=
  match regions, odict.items deployment_account_ids with
  | [], _ | _, [] => Ok ""
  | _ :: _, _ :: _ =>
      let* lines := variable_lines variables in
      Ok (strcat (region ← regions;
                  (λ item, module_block module_name module_source lines
                             dependencies region item.1)
                    <$> odict.items deployment_account_ids))
  end.

(** ** Example inputs *)

(** The OU map of the resolver's unit tests. *)
Definition workloads_tree : OrgTree :=
  [ ("Workloads/Pro", [Account "TestProdWorkload" "777777777777"]);
    ("Workloads/Dev", [Account "TestWorkload" "666666666666"]) ].

(** Two accounts that carry the same name in different OUs. *)
Definition twin_tree : OrgTree :=
  [ ("Sandbox/A", [Account "Sandbox" "111111111111"]);
    ("Sandbox/B", [Account "Sandbox" "222222222222"]) ].

(** A two-module run: [baseline] goes to both OUs but excludes the Audit
    account, [logging] targets the Audit account by name. *)
Definition org_tree : OrgTree :=
  [ ("root", [Account "Management" "111111111111"]);
    ("Security", [Account "Audit" "222222222222"]) ].

Definition baseline : tf_module :=
  TfModule "baseline" "git::baseline" ["eu-west-2"] [] []
    [ ("organizationalUnits", ["root"; "Security"]);
      ("excludedAccounts", ["Audit"]) ].

Definition logging : tf_module :=
  TfModule "logging" "git::logging" ["eu-west-1"] [] []
    [ ("accounts", ["Audit"]) ].

(** A module that depends on a module the run does not declare. *)
Definition orphan : tf_module :=
  TfModule "orphan" "git::orphan" ["eu-west-2"] [] ["moduleA"]
    [ ("accounts", ["Audit"]) ].

(** The state of a fresh process: no object, no region seen, no file
    written. *)
Definition fresh : world := World [] [] [].

(** A module in one region for the management account and one member
    account, with a variable of each supported kind and two dependencies:
<<
  - name: port
    value: 443
  - name: enabled
    value: true
  - name: zones
    value: [a, module.vpc.zone]
  - name: tags
    value: {tier: web, count: 2}
>>
    [web_rendered] is what [format_value] returns for each of them, and
    [web_tf] the text of the file terraform/web.tf, written out in full. *)
Definition web_accounts : odict.t string :=
  [ ("Management", "111111111111"); ("Audit", "222222222222") ].

Definition web_variables : list variable :=
  [ Var "port" (VInt 443);
    Var "enabled" (VBool true);
    Var "zones" (VList [VStr "a"; VStr "module.vpc.zone"]);
    Var "tags" (VDict [("tier", VStr "web"); ("count", VInt 2)]) ].

Definition web_rendered : list pyobj :=
  [ PInt 443;
    PStr "true";
    PStr (strcat [ "["; dq; "a"; dq; ", module.vpc.zone]" ]);
    PStr (strcat [ "{"; nl;
                   "    tier = "; dq; "web"; dq; nl;
                   "    count = 2"; nl;
                   "  }" ]) ].

Definition web_tf : string :=
  strcat [ "module "; dq; "web-eu-west-2-management"; dq; " {"; nl;
           "  source = "; dq; "git::web"; dq; nl;
           "  port = 443"; nl;
           "  enabled = true"; nl;
           "  zones = ["; dq; "a"; dq; ", module.vpc.zone]"; nl;
           "  tags = {"; nl;
           "    tier = "; dq; "web"; dq; nl;
           "    count = 2"; nl;
           "  }"; nl;
           "  depends_on = [ module.vpc-eu-west-2, module.dns-eu-west-2 ]"; nl;
           "}"; nl;
           nl;
           "module "; dq; "web-eu-west-2-audit"; dq; " {"; nl;
           "  source = "; dq; "git::web"; dq; nl;
           "  port = 443"; nl;
           "  enabled = true"; nl;
           "  zones = ["; dq; "a"; dq; ", module.vpc.zone]"; nl;
           "  tags = {"; nl;
           "    tier = "; dq; "web"; dq; nl;
           "    count = 2"; nl;
           "  }"; nl;
           "  providers = {"; nl;
           "    aws = aws.eu-west-2-audit"; nl;
           "    }"; nl;
           "  depends_on = [ module.vpc-eu-west-2, module.dns-eu-west-2 ]"; nl;
           "}"; nl;
           nl ].



(** ** The organisation tree builder and the entry point *)

(** The organisation as the Organizations client presents it to the walk:
    an OU with its id and simple name, the pages of
    [list_accounts_for_parent], the pages of
    [list_organizational_units_for_parent] (each child with what the client
    answers for it in turn) and the ["Children"] of the one
    [list_children] call for that OU. *)
#[warnings="-register-all"]
Inductive directory : Type :=
| OU (ou_id ou_name : string)
     (account_pages : list (list account))
     (ou_pages : list (list directory))
     (children : list string).

Definition simple_name (d : directory) : string :=
  match d with OU _ ou_name _ _ _ => ou_name end.

Definition NAME_OF_OU_ROOT : string := "root".

(** The walk either returns, or stops on reading the local [ou_name] that
    no branch has assigned yet. *)
Inductive walk (A : Type) : Type :=
| Walked (a : A)
| UnboundLocalError.

Arguments Walked {A} a.
Arguments UnboundLocalError {A}.

(** The naming branches of the loop body; [ou_name] is the local variable,
    [None] while it is unassigned, and keeps its value over the turns of
    the loop. *)
Definition next_ou_name
    (name : string) (children : list string) (child : string)
    (ou_name : option string) : option string :=
  if decide (name = NAME_OF_OU_ROOT) then Some child
  else match children with
       | _ :: _ => Some (name +:+ "/" +:+ child)
       | [] => ou_name
       end.

(** The loop over the OUs of one page and the loop over the pages; [recurse]
    is the recursive call, the state is the local [ou_name] with the
    dictionary. *)
Definition ous_loop
    (recurse : directory → string → OrgTree → walk OrgTree)
    (name : string) (children : list string)
    : list directory → option string * OrgTree → walk (option string * OrgTree) :=
  fix go (page : list directory) (st : option string * OrgTree) :=
    match page with
    | [] => Walked st
    | ou :: page' =>
        match next_ou_name name children (simple_name ou) st.1 with
        | None => UnboundLocalError
        | Some ou_name =>
            match recurse ou ou_name st.2 with
            | Walked accounts_by_ou => go page' (Some ou_name, accounts_by_ou)
            | UnboundLocalError => UnboundLocalError
            end
        end
    end.

Definition pages_loop
    (recurse : directory → string → OrgTree → walk OrgTree)
    (name : string) (children : list string)
    : list (list directory) → option string * OrgTree
      → walk (option string * OrgTree) :=
  fix go (pages : list (list directory)) (st : option string * OrgTree) :=
    match pages with
    | [] => Walked st
    | page :: pages' =>
        match ous_loop recurse name children page st with
        | Walked st' => go pages' st'
        | UnboundLocalError => UnboundLocalError
        end
    end.

(** [get_all_accounts_recursive]; the dictionary [accounts_by_ou] is
    threaded through the calls, as they all assign into the one object. *)
Fixpoint get_all_accounts_recursive
    (org : directory) (name : string) (accounts_by_ou : OrgTree)
    {struct org} : walk OrgTree :=
  match org with
  | OU _ _ account_pages ou_pages children =>
      let accounts := foldl (λ accounts page, accounts ++ page) [] account_pages in
      let accounts_by_ou := odict.set name accounts accounts_by_ou in
      match
        pages_loop
          (λ ou ou_name accounts_by_ou,
             get_all_accounts_recursive ou ou_name accounts_by_ou)
          name children ou_pages (None, accounts_by_ou)
      with
      | Walked st => Walked st.2
      | UnboundLocalError => UnboundLocalError
      end
  end.

(** [get_all_accounts]: the pages of [list_accounts], folded into one
    name ↦ id mapping. *)
Definition get_all_accounts (pages : list (list account)) : odict.t string :=
  foldl (λ accounts page, foldl record_account accounts page) odict.empty pages.

(** [create_backend_code] *)
Definition backend_code : string :=
  emit ("terraform {" +:+ nl)
    [ "  backend " +:+ dq +:+ "s3" +:+ dq +:+ " {" +:+ nl;
      "    use_lockfile = true" +:+ nl;
      "  }" +:+ nl;
      "  required_version = " +:+ dq +:+ ">= 1.11.1" +:+ dq +:+ nl;
      "}" ].

Definition create_backend_code (w : world) : world :=
  write_to_file backend_code "terraform/backend.tf" w.

(** [create_empty_main_tf] *)
Definition create_empty_main_tf (w : world) : world :=
  write_to_file "" "terraform/main.tf" w.

(** What [main] reads from outside: the [terraformModules] of the YAML file
    (the empty list also when the key is absent), the organisation, the
    pages of [list_accounts] and the region names of [describe_regions]. *)
Record environment : Type := Environment {
  terraformModules : list tf_module;
  organization : directory;
  list_accounts : list (list account);
  describe_regions : list string
}.

(** How [main] ends: it returns, [deploy_targets] ended as [flow] says, or
    the tree walk raised. *)
Inductive exit : Type :=
| Returned
| Deployed (f : flow)
| WalkFailed.

Section entry.

Variable set_add : string → list string → list string.

(** [deploy_targets] with the walk it starts with. *)
Definition deploy_targets_org
    (org : directory) (tf_modules : list tf_module) (w : world) : exit * world :=
  match get_all_accounts_recursive org NAME_OF_OU_ROOT odict.empty with
  | Walked built =>
      let '(f, w) := deploy_targets set_add built tf_modules w in (Deployed f, w)
  | UnboundLocalError => (WalkFailed, w)
  end.

Definition main (env : environment) (w : world) : exit * world :=
  let tf_modules := terraformModules env in
  let w := create_backend_code w in
  match tf_modules with
  | [] =>
      let all_accounts := get_all_accounts (list_accounts env) in
      let all_regions := describe_regions env in
      let '(_, w) := create_provider_code all_regions all_accounts w in
      let w := create_empty_main_tf w in
      (Returned, w)
  | _ :: _ => deploy_targets_org (organization env) tf_modules w
  end.

End entry.

(** ** Reference definitions for the tree builder, the formatter and the loop *)

(** The path of a child OU. *)
Definition child_path (name child : string) : string :=
  if decide (name = NAME_OF_OU_ROOT) then child else name +:+ "/" +:+ child.

(** The OUs below and including [org], in preorder, each as its path with
    the accounts directly inside it. *)
Fixpoint ou_entries (org : directory) (name : string)
    : list (string * list account) :=
  match org with
  | OU _ _ account_pages ou_pages _ =>
      (name, concat account_pages)
      :: (page ← ou_pages;
          ou ← page;
          ou_entries ou (child_path name (simple_name ou)))
  end.

(** Every OU below the root that has child OUs gets a non-empty answer
    from [list_children]. *)
Fixpoint well_listed (org : directory) (name : string) : bool :=
  match org with
  | OU _ _ _ ou_pages children =>
      match concat ou_pages with
      | [] => true
      | _ :: _ =>
          bool_decide (name = NAME_OF_OU_ROOT)
          || match children with [] => false | _ :: _ => true end
      end
      && forallb
           (λ page,
              forallb (λ ou, well_listed ou (child_path name (simple_name ou)))
                page)
           ou_pages
  end.

(** What remains of a loop's result once the local [ou_name] is dropped. *)
Definition walked_tree (r : walk (option string * OrgTree)) : walk OrgTree :=
  match r with
  | Walked st => Walked st.2
  | UnboundLocalError => UnboundLocalError
  end.

(** The accounts of the requested OUs, in the order of the request. *)
Definition requested_accounts
    (ou_target_accounts : list string) (tree : OrgTree) : list account :=
  ou ← ou_target_accounts; default [] (odict.get ou tree).

(** The exclusion list a module declares. *)
Definition exclusions (m : tf_module) : list string :=
  default [] (odict.get "excludedAccounts" (deploymentTargets m)).

(** The values [format_value] renders: no object of another type, and no
    integer directly inside a list that holds neither list nor mapping. *)
Definition is_int (v : value) : bool :=
  match v with VInt _ => true | _ => false end.

Fixpoint renderable (v : value) : bool :=
  match v with
  | VStr _ | VBool _ | VInt _ => true
  | VList vs =>
      forallb renderable vs
      && (if forallb (λ v, negb (is_container v)) vs
          then forallb (λ v, negb (is_int v)) vs else true)
  | VDict kvs => forallb (λ kv, renderable kv.2) kvs
  | VOther => false
  end.

(** The text of a string or a boolean inside a one-line list. *)
Definition scalar_text (v : value) : string :=
  match v with
  | VStr s => if startswith s "module." then s else dq +:+ s +:+ dq
  | VBool b => if b then "true" else "false"
  | _ => ""
  end.

(** A string or a boolean. *)
Definition is_text (v : value) : bool :=
  match v with VStr _ | VBool _ => true | _ => false end.

(** The two files a completed pass writes. *)
Definition pass_files (m : tf_module) : list string :=
  [ "terraform/provider.tf"; "terraform/" +:+ name m +:+ ".tf" ].

(** An organisation with a nested OU, an OU whose accounts come in two
    pages and an OU without accounts. *)
Definition example_org : directory :=
  OU "r-1" "Root" [[Account "Management" "111111111111"]]
    [ [ OU "ou-1" "Workloads" []
          [ [ OU "ou-2" "Dev" [[Account "TestWorkload" "666666666666"]] [] [] ];
            [ OU "ou-3" "Pro" [[Account "TestProdWorkload" "777777777777"]] [] [] ] ]
          ["ou-2"; "ou-3"];
        OU "ou-4" "Security"
          [[Account "Audit" "222222222222"]; [Account "LogArchive" "333333333333"]]
          [] [] ] ]
    ["ou-1"; "ou-4"].

(** The tree the walk builds for [example_org]. *)
Definition example_org_tree : OrgTree :=
  [ ("root", [Account "Management" "111111111111"]);
    ("Workloads", []);
    ("Workloads/Dev", [Account "TestWorkload" "666666666666"]);
    ("Workloads/Pro", [Account "TestProdWorkload" "777777777777"]);
    ("Security",
     [Account "Audit" "222222222222"; Account "LogArchive" "333333333333"]) ].

(** What [main] finds when the YAML file declares no module. *)
Definition teardown : environment :=
  Environment [] example_org
    [ [Account "Management" "111111111111"; Account "Audit" "222222222222"];
      [Account "LogArchive" "333333333333"] ]
    ["eu-west-1"; "eu-west-2"].

(** * Properties *)

(** ** Strings *)

Lemma str_app_nil_l (s : string) : "" +:+ s = s.
Proof. reflexivity. Qed.

Lemma str_app_cons (c : ascii) (s t : string) : String c s +:+ t = String c (s +:+ t).
Proof. reflexivity. Qed.

Lemma str_app_nil_r (s : string) : s +:+ "" = s.
Proof. induction s as [|c s IH]; [done|]. by rewrite str_app_cons, IH. Qed.

Lemma str_app_assoc (s t u : string) : (s +:+ t) +:+ u = s +:+ (t +:+ u).
Proof. induction s as [|c s IH]; [done|]. by rewrite !str_app_cons, IH. Qed.

Lemma str_length_app (s t : string) :
  String.length (s +:+ t) = String.length s + String.length t.
Proof. induction s as [|c s IH]; [done|]. rewrite str_app_cons. simpl. by rewrite IH. Qed.

Lemma substring_app_l (s t : string) :
  String.substring 0 (String.length s) (s +:+ t) = s.
Proof.
  induction s as [|c s IH]; [by destruct t|].
  rewrite str_app_cons. simpl. by rewrite IH.
Qed.

Lemma drop_last2_sep (s : string) : drop_last2 (s +:+ ", ") = s.
Proof.
  unfold drop_last2. rewrite str_length_app. simpl.
  replace (String.length s + 2 - 2) with (String.length s) by lia.
  apply substring_app_l.
Qed.

Lemma strcat_app (xs ys : list string) :
  strcat (xs ++ ys) = strcat xs +:+ strcat ys.
Proof.
  induction xs as [|x xs IH]; [done|].
  simpl. unfold strcat in *. simpl. by rewrite IH, str_app_assoc.
Qed.

Lemma emit_strcat (builder : string) (lines : list string) :
  emit builder lines = builder +:+ strcat lines.
Proof.
  revert builder. induction lines as [|l lines IH]; intros builder.
  - by rewrite str_app_nil_r.
  - unfold emit in *. simpl. rewrite IH. unfold strcat. simpl.
    by rewrite str_app_assoc.
Qed.

(** ** Ordered dictionaries *)

Lemma get_app_fresh {V} (k : string) (v : V) (pre rest : odict.t V) :
  k ∉ odict.keys pre → odict.get k (pre ++ (k, v) :: rest) = Some v.
Proof.
  induction pre as [|[k' v'] pre IH]; simpl; intros Hk.
  - by rewrite decide_True.
  - apply not_elem_of_cons in Hk as [Hne Hk].
    rewrite decide_False by done. by apply IH.
Qed.

Lemma set_app_fresh {V} (k : string) (v v0 : V) (pre rest : odict.t V) :
  k ∉ odict.keys pre →
  odict.set k v (pre ++ (k, v0) :: rest) = pre ++ (k, v) :: rest.
Proof.
  induction pre as [|[k' v'] pre IH]; simpl; intros Hk.
  - by rewrite decide_True.
  - apply not_elem_of_cons in Hk as [Hne Hk].
    rewrite decide_False by done. by rewrite IH.
Qed.

Lemma set_fresh {V} (k : string) (v : V) (d : odict.t V) :
  k ∉ odict.keys d → odict.set k v d = d ++ [(k, v)].
Proof.
  induction d as [|[k' v'] d IH]; simpl; intros Hk; [done|].
  apply not_elem_of_cons in Hk as [Hne Hk].
  rewrite decide_False by done. by rewrite IH.
Qed.

Lemma get_set {V} (k k' : string) (v : V) (d : odict.t V) :
  odict.get k' (odict.set k v d) =
  if decide (k' = k) then Some v else odict.get k' d.
Proof.
  induction d as [|[k0 v0] d IH]; simpl.
  - by destruct (decide (k' = k)).
  - destruct (decide (k = k0)) as [->|Hne]; simpl.
    + by destruct (decide (k' = k0)).
    + destruct (decide (k' = k0)) as [->|Hne'].
      * by rewrite decide_False.
      * by rewrite IH.
Qed.

Lemma keys_set {V} (k : string) (v : V) (d : odict.t V) (x : string) :
  x ∈ odict.keys (odict.set k v d) ↔ x = k ∨ x ∈ odict.keys d.
Proof.
  unfold odict.keys.
  induction d as [|[k0 v0] d IH]; simpl.
  - rewrite list_elem_of_singleton. split; [auto|].
    intros [?|H]; [done|]. by apply elem_of_nil in H.
  - destruct (decide (k = k0)) as [->|Hne]; simpl.
    + rewrite !elem_of_cons. tauto.
    + rewrite !elem_of_cons, IH. tauto.
Qed.

Lemma get_None_keys {V} (k : string) (d : odict.t V) :
  odict.get k d = None ↔ k ∉ odict.keys d.
Proof.
  induction d as [|[k0 v0] d IH]; simpl.
  - split; [intros _; apply not_elem_of_nil|done].
  - destruct (decide (k = k0)) as [->|Hne].
    + split; [done|]. intros []. by left.
    + rewrite IH. unfold odict.keys. simpl. rewrite not_elem_of_cons. tauto.
Qed.

Lemma get_fmap {V W} (g : string → V → W) (k : string) (d : odict.t V) :
  odict.get k ((λ kv, (kv.1, g kv.1 kv.2)) <$> d) = g k <$> odict.get k d.
Proof.
  induction d as [|[k0 v0] d IH]; simpl; [done|].
  by destruct (decide (k = k0)) as [->|Hne].
Qed.

(** ** The account resolver *)

(** *** filter_excluded_accounts *)

Lemma filter_excluded_accounts_suffix
    (excluded : list string) (rest pre : OrgTree) :
  NoDup (odict.keys (pre ++ rest)) →
  foldl
    (λ d '(ou, account),
       odict.set ou (List.filter (kept ou excluded) account) d)
    (pre ++ rest) rest
  = pre ++ ((λ kv, (kv.1, List.filter (kept kv.1 excluded) kv.2)) <$> rest).
Proof.
  revert pre. induction rest as [|[ou account] rest IH]; intros pre Hnd.
  - done.
  - simpl. rewrite set_app_fresh.
    + rewrite (cons_middle _ pre rest), app_assoc. rewrite IH.
      * by rewrite <- app_assoc.
      * revert Hnd. unfold odict.keys. rewrite !fmap_app. simpl.
        by rewrite <- app_assoc.
    + unfold odict.keys in *. rewrite fmap_app in Hnd. simpl in Hnd.
      apply NoDup_app in Hnd as (_ & Hdisj & _).
      intros Hin. apply (Hdisj _ Hin). by left.
Qed.

Lemma filter_excluded_accounts_fmap (tree : OrgTree) (excluded : list string) :
  NoDup (odict.keys tree) →
  filter_excluded_accounts tree excluded
  = (λ kv, (kv.1, List.filter (kept kv.1 excluded) kv.2)) <$> tree.
Proof.
  intros Hnd. unfold filter_excluded_accounts, odict.items.
  by apply (filter_excluded_accounts_suffix excluded tree []).
Qed.

Lemma kept_excluded_ou (ou : string) (excluded : list string) (accounts : list account) :
  ou ∈ excluded → List.filter (kept ou excluded) accounts = [].
Proof.
  intros Hin. induction accounts as [|a accounts IH]; [done|].
  simpl. unfold kept at 1, py_in. by rewrite bool_decide_eq_true_2.
Qed.

Lemma kept_other_ou (ou : string) (excluded : list string) (accounts : list account) :
  ou ∉ excluded →
  List.filter (kept ou excluded) accounts
  = filter (λ a, Name a ∉ excluded) accounts.
Proof.
  intros Hout. induction accounts as [|a accounts IH]; [done|].
  simpl. rewrite filter_cons. unfold kept at 1, py_in.
  rewrite (bool_decide_eq_false_2 _ Hout). simpl.
  destruct (decide (Name a ∉ excluded)) as [Hn|Hn].
  - rewrite bool_decide_eq_false_2 by done. simpl. by rewrite IH.
  - rewrite bool_decide_eq_true_2 by (by apply dec_stable). simpl. by rewrite IH.
Qed.

(** C2. For a tree with distinct OU paths, [filter_excluded_accounts] keeps
    the OU-path keys; an OU path that is itself an excluded entry maps to the
    empty list; in every other OU the accounts whose name is an excluded
    entry are removed and the remaining accounts stay, in their order; an
    excluded path does not touch its sub-paths. *)
Theorem filter_excluded_accounts_spec (tree : OrgTree) (excluded : list string) :
  NoDup (odict.keys tree) →
  odict.keys (filter_excluded_accounts tree excluded) = odict.keys tree
  ∧ (∀ ou, ou ∈ odict.keys tree → ou ∈ excluded →
       odict.get ou (filter_excluded_accounts tree excluded) = Some [])
  ∧ (∀ ou accounts, odict.get ou tree = Some accounts → ou ∉ excluded →
       odict.get ou (filter_excluded_accounts tree excluded)
       = Some (filter (λ a, Name a ∉ excluded) accounts))
  ∧ (∀ parent child accounts,
       parent ∈ excluded → parent +:+ "/" +:+ child ∉ excluded →
       odict.get (parent +:+ "/" +:+ child) tree = Some accounts →
       odict.get (parent +:+ "/" +:+ child) (filter_excluded_accounts tree excluded)
       = Some (filter (λ a, Name a ∉ excluded) accounts)).
Proof.
  intros Hnd. rewrite filter_excluded_accounts_fmap by done.
  assert (Hget : ∀ ou,
    odict.get ou ((λ kv, (kv.1, List.filter (kept kv.1 excluded) kv.2)) <$> tree)
    = (λ accounts, List.filter (kept ou excluded) accounts) <$> odict.get ou tree).
  { intros ou. apply (get_fmap (λ k v, List.filter (kept k excluded) v)). }
  split; [|split; [|split]].
  - unfold odict.keys. rewrite <- list_fmap_compose. done.
  - intros ou Hkey Hex. rewrite Hget.
    destruct (odict.get ou tree) as [accounts|] eqn:Hou.
    + simpl. by rewrite kept_excluded_ou.
    + by apply get_None_keys in Hou.
  - intros ou accounts Hou Hex. rewrite Hget, Hou. simpl.
    by rewrite kept_other_ou.
  - intros parent child accounts _ Hex Hou. rewrite Hget, Hou. simpl.
    by rewrite kept_other_ou.
Qed.

(** *** account_ids_from_ou *)

Lemma account_ids_from_ou_missing_from
    (tree : OrgTree) (paths : list string) (accounts : odict.t string) :
  (∃ p, p ∈ paths ∧ odict.get p tree = None) →
  foldM
    (λ accounts ou,
       match odict.get ou tree with
       | None => Raise TypeError
       | Some account_list => Ok (foldl record_account accounts account_list)
       end)
    paths accounts
  = Raise TypeError.
Proof.
  revert accounts. induction paths as [|ou paths IH]; intros accounts (p & Hin & Hp).
  - by apply elem_of_nil in Hin.
  - simpl. destruct (odict.get ou tree) as [account_list|] eqn:Hou; [|done].
    simpl. apply IH. exists p. split; [|done].
    apply elem_of_cons in Hin as [->|Hin]; [congruence|done].
Qed.

(** C8. When some requested OU path is not a key of the tree,
    [account_ids_from_ou] raises (the [TypeError] of iterating the [None]
    that the failed lookup returned) and returns no mapping. *)
Theorem account_ids_from_ou_missing_path
    (ou_target_accounts : list string) (tree : OrgTree) :
  (∃ p, p ∈ ou_target_accounts ∧ p ∉ odict.keys tree) →
  account_ids_from_ou ou_target_accounts tree = Raise TypeError
  ∧ ∀ accounts, account_ids_from_ou ou_target_accounts tree ≠ Ok accounts.
Proof.
  intros (p & Hin & Hp).
  assert (H : account_ids_from_ou ou_target_accounts tree = Raise TypeError).
  { apply account_ids_from_ou_missing_from. exists p.
    by rewrite get_None_keys. }
  split; [done|]. intros accounts. by rewrite H.
Qed.

Lemma account_ids_from_ou_suffix
    (rest pre : OrgTree) (accounts : odict.t string) :
  NoDup (odict.keys (pre ++ rest)) →
  foldM
    (λ accounts ou,
       match odict.get ou (pre ++ rest) with
       | None => Raise TypeError
       | Some account_list => Ok (foldl record_account accounts account_list)
       end)
    (odict.keys rest) accounts
  = Ok (foldl record_account accounts (flatten rest)).
Proof.
  revert pre accounts.
  induction rest as [|[ou account_list] rest IH]; intros pre accounts Hnd.
  - done.
  - assert (Hfresh : ou ∉ odict.keys pre).
    { unfold odict.keys in *. rewrite fmap_app in Hnd. simpl in Hnd.
      apply NoDup_app in Hnd as (_ & Hdisj & _).
      intros Hin. apply (Hdisj _ Hin). by left. }
    simpl. rewrite get_app_fresh by done. simpl.
    unfold flatten. simpl. rewrite foldl_app.
    specialize (IH (pre ++ [(ou, account_list)])
                  (foldl record_account accounts account_list)).
    rewrite <- app_assoc in IH. simpl in IH. apply IH.
    revert Hnd. unfold odict.keys. by rewrite !fmap_app.
Qed.

Lemma account_ids_from_ou_all_paths (tree : OrgTree) :
  NoDup (odict.keys tree) →
  account_ids_from_ou (odict.keys tree) tree
  = Ok (foldl record_account odict.empty (flatten tree)).
Proof. intros Hnd. by apply (account_ids_from_ou_suffix tree []). Qed.

Lemma record_accounts_sound (n i : string) (l : list account) (accounts : odict.t string) :
  odict.get n (foldl record_account accounts l) = Some i →
  (∃ a, a ∈ l ∧ Name a = n ∧ Id a = i) ∨ odict.get n accounts = Some i.
Proof.
  revert accounts. induction l as [|a l IH]; intros accounts Hget; [by right|].
  simpl in Hget. apply IH in Hget as [(b & Hb & Hn & Hi)|Hget].
  - left. exists b. split; [by right|done].
  - unfold record_account in Hget. rewrite get_set in Hget.
    destruct (decide (n = Name a)) as [->|Hne]; [|by right].
    left. exists a. split; [by left|]. split; [done|congruence].
Qed.

Lemma record_accounts_last (n : string) (l : list account) (accounts : odict.t string) :
  odict.get n (foldl record_account accounts l)
  = match last_named n l with
    | Some a => Some (Id a)
    | None => odict.get n accounts
    end.
Proof.
  revert accounts. induction l as [|a l IH]; intros accounts; [done|].
  simpl. rewrite IH. unfold last_named, record_account. rewrite get_set.
  destruct (decide (Name a = n)) as [Heq|Hne].
  - rewrite filter_cons_True, last_cons by done.
    destruct (last (filter (λ b, Name b = n) l)); [done|].
    by rewrite decide_True.
  - rewrite filter_cons_False by done.
    destruct (last (filter (λ b, Name b = n) l)); [done|].
    by rewrite decide_False.
Qed.

Lemma record_accounts_distinct (l : list account) (accounts : odict.t string) :
  NoDup (Name <$> l) →
  (∀ a, a ∈ l → Name a ∉ odict.keys accounts) →
  foldl record_account accounts l = accounts ++ (name_id <$> l).
Proof.
  revert accounts. induction l as [|a l IH]; intros accounts Hnd Hfresh.
  - by rewrite app_nil_r.
  - simpl in *. apply NoDup_cons in Hnd as [Ha Hnd].
    unfold record_account at 2. rewrite set_fresh by (apply Hfresh; by left).
    rewrite IH; [by rewrite <- app_assoc|done|].
    intros b Hb. unfold odict.keys. rewrite fmap_app, not_elem_of_app. split.
    + apply Hfresh. by right.
    + simpl. rewrite list_elem_of_singleton. intros Heq.
      apply Ha. rewrite <- Heq. by apply list_elem_of_fmap_2.
Qed.

(** Closed goals about concrete inputs are settled by evaluation. *)
Ltac by_evaluation := apply (bool_decide_unpack _); vm_compute; exact I.

(** C9, as stated: with two accounts of one name the earlier account's pair
    is missing from the result of [account_ids_from_ou] on all OU paths. *)
Lemma account_ids_from_ou_all_paths_omits_pair :
  ¬ (∀ tree : OrgTree, NoDup (odict.keys tree) →
       ∃ accounts,
         account_ids_from_ou (odict.keys tree) tree = Ok accounts
         ∧ (∀ a, a ∈ flatten tree → odict.get (Name a) accounts = Some (Id a))
         ∧ (∀ n i, odict.get n accounts = Some i →
              ∃ a, a ∈ flatten tree ∧ name_id a = (n, i))).
Proof.
  intros H. destruct (H twin_tree) as (accounts & Hrun & Hall & _).
  { by_evaluation. }
  vm_compute in Hrun. injection Hrun as <-.
  specialize (Hall (Account "Sandbox" "111111111111")).
  vm_compute in Hall. discriminate Hall. by left.
Qed.

(** C9, amended. On a tree with distinct OU paths, [account_ids_from_ou]
    applied to all OU paths returns a mapping whose every pair is the
    (name, id) of an account in some OU list and that maps every name to the
    id of the last account of that name in tree order; when the account
    names of the tree are pairwise distinct the mapping is exactly the
    flattened sequence of (name, id) pairs. *)
Theorem account_ids_from_ou_all_paths_spec (tree : OrgTree) :
  NoDup (odict.keys tree) →
  ∃ accounts,
    account_ids_from_ou (odict.keys tree) tree = Ok accounts
    ∧ (∀ n i, odict.get n accounts = Some i →
         ∃ a, a ∈ flatten tree ∧ name_id a = (n, i))
    ∧ (∀ n, odict.get n accounts = Id <$> last_named n (flatten tree))
    ∧ (NoDup (Name <$> flatten tree) → accounts = name_id <$> flatten tree).
Proof.
  intros Hnd. eexists. split; [by apply account_ids_from_ou_all_paths|].
  split; [|split].
  - intros n i Hget. apply record_accounts_sound in Hget as [(a & Ha & <- & <-)|Hget].
    + by exists a.
    + discriminate Hget.
  - intros n. rewrite record_accounts_last.
    by destruct (last_named n (flatten tree)).
  - intros Hnames. rewrite record_accounts_distinct; [done|done|].
    intros a _. apply not_elem_of_nil.
Qed.

Lemma account_ids_from_ou_all_paths_spec_witness :
  ∃ accounts,
    account_ids_from_ou (odict.keys workloads_tree) workloads_tree = Ok accounts
    ∧ (∀ n i, odict.get n accounts = Some i →
         ∃ a, a ∈ flatten workloads_tree ∧ name_id a = (n, i))
    ∧ (∀ n, odict.get n accounts = Id <$> last_named n (flatten workloads_tree))
    ∧ (NoDup (Name <$> flatten workloads_tree) →
         accounts = name_id <$> flatten workloads_tree).
Proof.
  apply (account_ids_from_ou_all_paths_spec workloads_tree).
  apply (bool_decide_unpack _); vm_compute; exact I.
Defined.

Lemma account_ids_from_ou_missing_path_witness :
  account_ids_from_ou ["Workloads/Pro"; "Workloads/Test"] workloads_tree
  = Raise TypeError
  ∧ ∀ accounts,
      account_ids_from_ou ["Workloads/Pro"; "Workloads/Test"] workloads_tree
      ≠ Ok accounts.
Proof.
  apply (account_ids_from_ou_missing_path
           ["Workloads/Pro"; "Workloads/Test"] workloads_tree).
  exists "Workloads/Test". split.
  - apply (bool_decide_unpack _); vm_compute; exact I.
  - apply (bool_decide_unpack _); vm_compute; exact I.
Defined.

Lemma filter_excluded_accounts_spec_witness :
  let excluded := ["Workloads/Pro"; "TestWorkload"] in
  odict.keys (filter_excluded_accounts workloads_tree excluded)
  = odict.keys workloads_tree
  ∧ (∀ ou, ou ∈ odict.keys workloads_tree → ou ∈ excluded →
       odict.get ou (filter_excluded_accounts workloads_tree excluded) = Some [])
  ∧ (∀ ou accounts, odict.get ou workloads_tree = Some accounts → ou ∉ excluded →
       odict.get ou (filter_excluded_accounts workloads_tree excluded)
       = Some (filter (λ a, Name a ∉ excluded) accounts))
  ∧ (∀ parent child accounts,
       parent ∈ excluded → parent +:+ "/" +:+ child ∉ excluded →
       odict.get (parent +:+ "/" +:+ child) workloads_tree = Some accounts →
       odict.get (parent +:+ "/" +:+ child)
         (filter_excluded_accounts workloads_tree excluded)
       = Some (filter (λ a, Name a ∉ excluded) accounts)).
Proof.
  apply (filter_excluded_accounts_spec workloads_tree
           ["Workloads/Pro"; "TestWorkload"]).
  apply (bool_decide_unpack _); vm_compute; exact I.
Defined.

(** *** account_ids_from_name *)

Lemma filter_ext_in {A} (P Q : A → Prop)
    `{∀ x, Decision (P x)} `{∀ x, Decision (Q x)} (l : list A) :
  (∀ x, x ∈ l → P x ↔ Q x) → filter P l = filter Q l.
Proof.
  induction l as [|x l IH]; intros Hext; [done|].
  rewrite !filter_cons.
  rewrite IH by (intros y Hy; apply Hext; by right).
  destruct (decide (P x)) as [HP|HP], (decide (Q x)) as [HQ|HQ]; try done.
  - exfalso. apply HQ. apply Hext; [by left|done].
  - exfalso. apply HP. apply Hext; [by left|done].
Qed.

Lemma filter_id {A} (P : A → Prop) `{∀ x, Decision (P x)} (l : list A) :
  (∀ x, x ∈ l → P x) → filter P l = l.
Proof.
  induction l as [|x l IH]; intros HP; [done|].
  rewrite filter_cons_True by (apply HP; by left).
  f_equal. apply IH. intros y Hy. apply HP. by right.
Qed.

Lemma filter_ne_fresh (x : string) (l : list string) :
  x ∉ l → filter (λ y, y ≠ x) l = l.
Proof.
  induction l as [|y l IH]; intros Hx; [done|].
  apply not_elem_of_cons in Hx as [Hne Hx].
  rewrite filter_cons_True by done. by rewrite IH.
Qed.

Lemma py_remove_NoDup (x : string) (l : list string) :
  NoDup l → py_remove x l = filter (λ y, y ≠ x) l.
Proof.
  induction l as [|y l IH]; intros Hnd; [done|].
  apply NoDup_cons in Hnd as [Hy Hnd]. simpl.
  destruct (decide (x = y)) as [->|Hne].
  - rewrite filter_cons_False by (intros Hn; by apply Hn).
    by rewrite filter_ne_fresh.
  - rewrite filter_cons_True by done. by rewrite IH.
Qed.

Lemma account_ids_from_name_suffix
    (rest pre : OrgTree) (st : odict.t string * list string) :
  NoDup (odict.keys (pre ++ rest)) →
  foldl
    (λ st ou, foldl match_account st (default [] (odict.get ou (pre ++ rest))))
    st (odict.keys rest)
  = foldl match_account st (flatten rest).
Proof.
  revert pre st.
  induction rest as [|[ou account_list] rest IH]; intros pre st Hnd; [done|].
  assert (Hfresh : ou ∉ odict.keys pre).
  { unfold odict.keys in *. rewrite fmap_app in Hnd. simpl in Hnd.
    apply NoDup_app in Hnd as (_ & Hdisj & _).
    intros Hin. apply (Hdisj _ Hin). by left. }
  simpl. rewrite get_app_fresh by done. simpl.
  unfold flatten. simpl. rewrite foldl_app.
  specialize (IH (pre ++ [(ou, account_list)]) (foldl match_account st account_list)).
  rewrite <- app_assoc in IH. simpl in IH. apply IH.
  revert Hnd. unfold odict.keys. by rewrite !fmap_app.
Qed.

Lemma account_ids_from_name_flatten (names : list string) (tree : OrgTree) :
  NoDup (odict.keys tree) →
  account_ids_from_name names tree
  = foldl match_account (odict.empty, names) (flatten tree).
Proof. intros Hnd. by apply (account_ids_from_name_suffix tree []). Qed.

Lemma match_accounts_scan
    (l : list account) (found : odict.t string) (remaining : list string) :
  NoDup remaining →
  (∀ n, odict.get n (foldl match_account (found, remaining) l).1
        = if decide (n ∈ remaining)
          then match first_named n l with
               | Some a => Some (Id a)
               | None => odict.get n found
               end
          else odict.get n found)
  ∧ (foldl match_account (found, remaining) l).2
    = filter (λ n, n ∉ Name <$> l) remaining.
Proof.
  revert found remaining.
  induction l as [|a l IH]; intros found remaining Hnd.
  { split.
    - intros n. simpl. by destruct (decide (n ∈ remaining)).
    - simpl. symmetry. apply filter_id. intros x _. apply not_elem_of_nil. }
  change (foldl match_account (found, remaining) (a :: l))
    with (foldl match_account (match_account (found, remaining) a) l).
  destruct (decide (Name a ∈ remaining)) as [Hin|Hout].
  - assert (Hstep : match_account (found, remaining) a
                    = (odict.set (Name a) (Id a) found,
                       filter (λ y, y ≠ Name a) remaining)).
    { unfold match_account, py_in. rewrite bool_decide_eq_true_2 by done.
      by rewrite py_remove_NoDup. }
    rewrite Hstep.
    destruct (IH (odict.set (Name a) (Id a) found)
                 (filter (λ y, y ≠ Name a) remaining)) as [Hget Hrem].
    { by apply NoDup_filter. }
    split.
    + intros n. rewrite Hget. unfold first_named. rewrite get_set.
      destruct (decide (n = Name a)) as [->|Hne].
      * rewrite decide_False, decide_True by
          (try done; rewrite list_elem_of_filter; intros [Hn _]; by apply Hn).
        by rewrite filter_cons_True.
      * rewrite filter_cons_False by (intros Heq; by apply Hne).
        destruct (decide (n ∈ remaining)) as [Hn|Hn].
        -- by rewrite decide_True by (by apply list_elem_of_filter).
        -- by rewrite decide_False by (rewrite list_elem_of_filter; tauto).
    + rewrite Hrem, list_filter_filter. apply list_filter_iff.
      intros x. simpl. rewrite not_elem_of_cons. tauto.
  - assert (Hstep : match_account (found, remaining) a = (found, remaining)).
    { unfold match_account, py_in. by rewrite bool_decide_eq_false_2. }
    rewrite Hstep.
    destruct (IH found remaining Hnd) as [Hget Hrem]. split.
    + intros n. rewrite Hget. unfold first_named.
      destruct (decide (n ∈ remaining)) as [Hn|Hn]; [|done].
      rewrite filter_cons_False; [done|].
      intros Heq. apply Hout. by rewrite Heq.
    + rewrite Hrem. apply filter_ext_in. intros x Hx. simpl.
      rewrite not_elem_of_cons. split; [|tauto].
      intros Hxl. split; [|done]. intros ->. by apply Hout.
Qed.

(** C3, as stated: a name requested twice resolves to the second account
    that carries it, not to the first one encountered. *)
Lemma account_ids_from_name_repeated_request :
  ¬ (∀ (names : list string) (tree : OrgTree) (n : string),
       NoDup (odict.keys tree) → n ∈ names →
       odict.get n (account_ids_from_name names tree).1
       = Id <$> first_named n (flatten tree)).
Proof.
  intros H. specialize (H ["Sandbox"; "Sandbox"] twin_tree "Sandbox").
  vm_compute in H. discriminate H.
  - apply (bool_decide_unpack _); vm_compute; exact I.
  - by left.
Qed.

(** C3, amended. For a tree with distinct OU paths and a requested list in
    which no name is repeated, [account_ids_from_name] maps every requested
    name that some account carries to the id of the first such account in
    tree order, maps no other name, raises nothing for a requested name that
    no account carries, and leaves in the requested list exactly the names
    that matched no account. *)
Theorem account_ids_from_name_spec (names : list string) (tree : OrgTree) :
  NoDup (odict.keys tree) → NoDup names →
  (∀ n, odict.get n (account_ids_from_name names tree).1
        = if decide (n ∈ names) then Id <$> first_named n (flatten tree) else None)
  ∧ (account_ids_from_name names tree).2
    = filter (λ n, n ∉ Name <$> flatten tree) names.
Proof.
  intros Htree Hnames. rewrite account_ids_from_name_flatten by done.
  destruct (match_accounts_scan (flatten tree) odict.empty names Hnames)
    as [Hget Hrem].
  split; [|done]. intros n. rewrite Hget.
  destruct (decide (n ∈ names)); [|done].
  by destruct (first_named n (flatten tree)).
Qed.

Lemma account_ids_from_name_spec_witness :
  let names := ["TestWorkload"; "Audit"] in
  (∀ n, odict.get n (account_ids_from_name names workloads_tree).1
        = if decide (n ∈ names)
          then Id <$> first_named n (flatten workloads_tree) else None)
  ∧ (account_ids_from_name names workloads_tree).2
    = filter (λ n, n ∉ Name <$> flatten workloads_tree) names.
Proof.
  apply (account_ids_from_name_spec ["TestWorkload"; "Audit"] workloads_tree).
  - apply (bool_decide_unpack _); vm_compute; exact I.
  - apply (bool_decide_unpack _); vm_compute; exact I.
Defined.

(** ** Code generation *)

(** Both sides of a goal are brought to a right-nested concatenation of
    the same text fragments. *)
Ltac str_normalize :=
  rewrite ?emit_strcat; unfold strcat; cbn [foldr];
  rewrite ?str_app_assoc, ?str_app_nil_r.

(** *** create_provider_code *)

Lemma provider_step_block (region builder : string) (item : string * string) :
  provider_step region builder item
  = builder +:+ provider_block region item.1 item.2.
Proof.
  destruct item as [account_name account_id].
  unfold provider_step, provider_block. simpl.
  destruct (decide (account_name = "Management")); by str_normalize.
Qed.

Lemma provider_steps_blocks
    (region builder : string) (items : list (string * string)) :
  foldl (provider_step region) builder items
  = builder +:+ strcat ((λ item, provider_block region item.1 item.2) <$> items).
Proof.
  revert builder. induction items as [|item items IH]; intros builder.
  - by rewrite str_app_nil_r.
  - simpl. rewrite IH, provider_step_block.
    unfold strcat. simpl. by rewrite str_app_assoc.
Qed.

Lemma provider_builder_blocks
    (regions : list string) (builder : string) (ids : odict.t string) :
  foldl (λ builder region, foldl (provider_step region) builder (odict.items ids))
    builder regions
  = builder +:+ provider_blocks regions ids.
Proof.
  revert builder. induction regions as [|region regions IH]; intros builder.
  - by rewrite str_app_nil_r.
  - simpl. rewrite IH, provider_steps_blocks. unfold provider_blocks. simpl.
    by rewrite strcat_app, str_app_assoc.
Qed.

Lemma create_provider_code_blocks
    (regions : list string) (ids : odict.t string) (w : world) :
  create_provider_code regions ids w
  = (provider_blocks regions ids,
     write_to_file (provider_blocks regions ids) "terraform/provider.tf" w).
Proof.
  unfold create_provider_code. by rewrite provider_builder_blocks.
Qed.

(** C4. [create_provider_code] returns, and hands to the file sink, the
    concatenation over all (region, account) pairs of one provider block:
    for the account named exactly Management a block with the region only,
    for any other account a block with an [assume_role] on
    OrganizationAccountAccessRole of that account id and the alias
    region-lowercased-name.  For Management and Audit in eu-west-2 the text
    has one [assume_role] block, aliased eu-west-2-audit, and none for
    Management. *)
Theorem create_provider_code_spec
    (regions : list string) (account_ids_by_name : odict.t string) (w : world) :
  create_provider_code regions account_ids_by_name w
  = (provider_blocks regions account_ids_by_name,
     write_to_file (provider_blocks regions account_ids_by_name)
       "terraform/provider.tf" w)
  ∧ (∀ region account_id,
       provider_block region "Management" account_id
       = strcat [ "provider "; dq; "aws"; dq; " {"; nl;
                  "  region = "; dq; region; dq; nl; "}"; nl; nl ])
  ∧ (∀ region account_name account_id,
       account_name ≠ "Management" →
       provider_block region account_name account_id
       = strcat [ "provider "; dq; "aws"; dq; " {"; nl;
                  "  assume_role {"; nl;
                  "    role_arn = "; dq; "arn:aws:iam::"; account_id;
                    ":role/OrganizationAccountAccessRole"; dq; nl;
                  "  }"; nl;
                  "  alias  = "; dq; region; "-"; lower account_name; dq; nl;
                  "  region = "; dq; region; dq; nl; "}"; nl; nl ])
  ∧ (let text :=
       (create_provider_code ["eu-west-2"]
          [("Management", "123456789012"); ("Audit", "555555555555")] w).1 in
     text = provider_block "eu-west-2" "Management" "123456789012"
            +:+ provider_block "eu-west-2" "Audit" "555555555555"
     ∧ occurrences "assume_role"
         (provider_block "eu-west-2" "Management" "123456789012") = 0
     ∧ occurrences "assume_role" text = 1
     ∧ occurrences "alias" text = 1
     ∧ occurrences (strcat ["alias  = "; dq; "eu-west-2-audit"; dq]) text = 1).
Proof.
  split; [apply create_provider_code_blocks|].
  split; [|split].
  - intros region account_id. unfold provider_block. by rewrite decide_True.
  - intros region account_name account_id Hne. unfold provider_block.
    by rewrite decide_False.
  - rewrite create_provider_code_blocks. simpl. by vm_compute.
Qed.

(** *** create_module_code *)

Lemma variable_steps_lines (variables : list variable) (module_code : string) :
  foldM variable_step variables module_code
  = let* lines := variable_lines variables in Ok (module_code +:+ lines).
Proof.
  unfold variable_lines. revert module_code.
  induction variables as [|var variables IH]; intros module_code.
  - simpl. by rewrite str_app_nil_r.
  - simpl. unfold variable_step at 1, variable_line at 1.
    destruct (format_value (var_value var) 0) as [formatted|e]; [|done].
    simpl. rewrite IH.
    destruct (mapM variable_line variables) as [lines|e]; [|done].
    simpl. f_equal. by str_normalize.
Qed.

Lemma depends_on_entries (region : string) (dependencies : list string)
    (first code : string) :
  foldl
    (λ code dependent,
       code +:+ ("module." +:+ dependent +:+ "-" +:+ region +:+ ", "))
    code (first :: dependencies)
  = (code +:+ String.concat ", "
                (depends_on_entry region <$> first :: dependencies))
    +:+ ", ".
Proof.
  revert first code.
  induction dependencies as [|d dependencies IH]; intros first code.
  - simpl. unfold depends_on_entry. by str_normalize.
  - change (foldl ?f code (first :: d :: dependencies))
      with (foldl f (f code first) (d :: dependencies)).
    rewrite IH, !fmap_cons.
    change (String.concat ", " (?x :: ?y :: ?l))
      with (x +:+ ", " +:+ String.concat ", " (y :: l)).
    generalize (String.concat ", "
                  (depends_on_entry region d
                     :: (depends_on_entry region <$> dependencies))).
    intros tail. unfold depends_on_entry. by str_normalize.
Qed.

Lemma depends_on_built (region : string) (dependencies : list string)
    (first code : string) :
  drop_last2
    (foldl
       (λ code dependent,
          code +:+ ("module." +:+ dependent +:+ "-" +:+ region +:+ ", "))
       (code +:+ "  depends_on = [ ") (first :: dependencies))
  +:+ (" ]" +:+ nl)
  = code +:+ depends_on_line (first :: dependencies) region.
Proof.
  rewrite depends_on_entries, drop_last2_sep.
  unfold depends_on_line. by str_normalize.
Qed.

Lemma module_step_block
    (module_name module_source : string) (variables : list variable)
    (dependencies : list string) (region module_code : string)
    (item : string * string) :
  module_step module_name module_source variables dependencies region
    module_code item
  = let* lines := variable_lines variables in
    Ok (module_code +:+
          module_block module_name module_source lines dependencies region item.1).
Proof.
  unfold module_step. rewrite variable_steps_lines.
  destruct (variable_lines variables) as [lines|e]; [|done].
  simpl. f_equal. unfold module_block, providers_reference.
  destruct (decide (lower item.1 = "management")) as [Hm|Hm].
  - rewrite decide_False by (intros Hne; by apply Hne).
    destruct dependencies as [|dependent dependencies].
    + simpl. by str_normalize.
    + rewrite depends_on_built. by str_normalize.
  - rewrite decide_True by done.
    destruct dependencies as [|dependent dependencies].
    + simpl. by str_normalize.
    + rewrite depends_on_built. by str_normalize.
Qed.

Section module_code.

Variables (module_name module_source : string) (variables : list variable).
Variables (dependencies : list string).

Lemma module_steps_ok (lines region : string) (items : list (string * string))
    (module_code : string) :
  variable_lines variables = Ok lines →
  foldM (module_step module_name module_source variables dependencies region)
    items module_code
  = Ok (module_code +:+
          strcat ((λ item, module_block module_name module_source lines
                             dependencies region item.1) <$> items)).
Proof.
  intros Hlines. revert module_code.
  induction items as [|item items IH]; intros module_code.
  - simpl. by rewrite str_app_nil_r.
  - simpl. rewrite module_step_block, Hlines. simpl. rewrite IH.
    f_equal. unfold strcat. simpl. by rewrite str_app_assoc.
Qed.

Lemma module_regions_ok (lines : string) (regions : list string)
    (items : list (string * string)) (module_code : string) :
  variable_lines variables = Ok lines →
  foldM
    (λ module_code region,
       foldM (module_step module_name module_source variables dependencies region)
         items module_code)
    regions module_code
  = Ok (module_code +:+
          strcat (region ← regions;
                  (λ item, module_block module_name module_source lines
                             dependencies region item.1) <$> items)).
Proof.
  intros Hlines. revert module_code.
  induction regions as [|region regions IH]; intros module_code.
  - simpl. by rewrite str_app_nil_r.
  - simpl. rewrite (module_steps_ok lines) by done. simpl. rewrite IH.
    f_equal. by rewrite strcat_app, str_app_assoc.
Qed.

Lemma module_regions_raise (e : exn) (regions : list string)
    (item : string * string) (items : list (string * string))
    (module_code : string) :
  variable_lines variables = Raise e →
  foldM
    (λ module_code region,
       foldM (module_step module_name module_source variables dependencies region)
         (item :: items) module_code)
    regions module_code
  = match regions with
    | [] => Ok module_code
    | _ :: _ => Raise e
    end.
Proof.
  intros Hlines. destruct regions as [|region regions]; [done|].
  simpl. by rewrite module_step_block, Hlines.
Qed.

Lemma module_regions_no_accounts (regions : list string) (module_code : string) :
  foldM
    (λ module_code region,
       foldM (module_step module_name module_source variables dependencies region)
         [] module_code)
    regions module_code
  = Ok module_code.
Proof. induction regions as [|region regions IH]; [done|]. simpl. apply IH. Qed.

End module_code.

(** The lines of the variables, once [format_value] has rendered each
    value. *)
Lemma variable_lines_rendered (variables : list variable) (rendered : list pyobj) :
  Forall2 (λ var formatted, format_value (var_value var) 0 = Ok formatted)
    variables rendered →
  variable_lines variables = Ok (strcat (zip_with rendered_line variables rendered)).
Proof.
  intros Hrendered. unfold variable_lines.
  assert (mapM variable_line variables
          = Ok (zip_with rendered_line variables rendered)) as ->; [|done].
  induction Hrendered as [|var formatted variables rendered Hvalue _ IH]; [done|].
  simpl. unfold variable_line at 1. rewrite Hvalue. simpl. by rewrite IH.
Qed.

Lemma providers_reference_omitted (region account_name : string) :
  providers_reference region account_name = ""
  ↔ lower account_name = "management".
Proof.
  unfold providers_reference.
  destruct (decide (lower account_name = "management")) as [Hm|Hm]; [done|].
  split; [|done]. intros Hempty. exfalso. revert Hempty. by vm_compute.
Qed.

(** C5, amended. Whenever [format_value] renders the value of every declared
    variable, [create_module_code] returns, and hands to the file sink for the
    file of the module under terraform/, the concatenation over all (region, account) pairs,
    regions outer and accounts inner, of one block named
    module-region-lowercased-name that holds the source, one line per
    declared variable in declared order with the rendered value, the alias
    reference aws.region-lowercased-name, and, when dependencies are
    declared, one [depends_on] list with the entry module.dependency-region
    per dependency; the alias reference is left out exactly when the
    lowercased account name is management. *)
Theorem create_module_code_rendered
    (module_name module_source : string) (deployment_account_ids : odict.t string)
    (regions : list string) (variables : list variable)
    (module_dependencies : list string) (rendered : list pyobj) (w : world) :
  Forall2 (λ var formatted, format_value (var_value var) 0 = Ok formatted)
    variables rendered →
  let lines := strcat (zip_with rendered_line variables rendered) in
  let text :=
    strcat (region ← regions;
            (λ item, module_block module_name module_source lines
                       module_dependencies region item.1)
              <$> odict.items deployment_account_ids) in
  create_module_code module_name module_source deployment_account_ids regions
    variables module_dependencies w
  = (Ok text, write_to_file text ("terraform/" +:+ module_name +:+ ".tf") w)
  ∧ (∀ region account_name,
       providers_reference region account_name = ""
       ↔ lower account_name = "management")
  ∧ (∀ region account_name,
       lower account_name ≠ "management" →
       providers_reference region account_name
       = strcat [ "  providers = {"; nl;
                  "    aws = aws."; region; "-"; lower account_name; nl;
                  "    }"; nl ])
  ∧ (∀ region, depends_on_line [] region = "")
  ∧ (∀ region dependency dependencies,
       depends_on_line (dependency :: dependencies) region
       = strcat [ "  depends_on = [ ";
                  String.concat ", "
                    ((λ dependency, strcat [ "module."; dependency; "-"; region ])
                       <$> dependency :: dependencies);
                  " ]"; nl ]).
Proof.
  intros Hrendered lines text. split; [|split; [|split; [|split]]].
  - unfold create_module_code.
    rewrite (module_regions_ok _ _ _ _ lines)
      by (by apply variable_lines_rendered).
    reflexivity.
  - apply providers_reference_omitted.
  - intros region account_name Hne. unfold providers_reference.
    by rewrite decide_False.
  - done.
  - done.
Qed.

(** The file terraform/web.tf of the example, character by character. *)
Lemma create_module_code_rendered_witness :
  create_module_code "web" "git::web" web_accounts ["eu-west-2"] web_variables
    ["vpc"; "dns"] fresh
  = (Ok web_tf, write_to_file web_tf "terraform/web.tf" fresh).
Proof.
  assert (Forall2 (λ var formatted, format_value (var_value var) 0 = Ok formatted)
            web_variables web_rendered) as Hrendered
    by (repeat constructor).
  exact (proj1 (create_module_code_rendered "web" "git::web" web_accounts
                  ["eu-west-2"] web_variables ["vpc"; "dns"] web_rendered fresh
                  Hrendered)).
Defined.

(** C5, as stated, fails: a declared variable whose value [format_value]
    does not render ends the call with its [TypeError], and then no block is
    emitted for the pair and no file is written. The first input holds a
    value of a type the formatter rejects (a float, ratio: 0.5); the second
    is the flat list of integers of C6. *)
Lemma create_module_code_unrendered_variable :
  create_module_code "web" "git::web" [("Audit", "222222222222")] ["eu-west-2"]
    [Var "ratio" VOther] [] fresh
  = (Raise TypeError, fresh)
  ∧ create_module_code "web" "git::web" [("Audit", "222222222222")] ["eu-west-2"]
      [Var "ports" (VList [VInt 80; VInt 443])] [] fresh
    = (Raise TypeError, fresh)
  ∧ ¬ (∀ (module_name module_source : string)
         (deployment_account_ids : odict.t string) (regions : list string)
         (variables : list variable) (module_dependencies : list string)
         (w : world),
         ∃ text,
           create_module_code module_name module_source deployment_account_ids
             regions variables module_dependencies w
           = (Ok text,
              write_to_file text ("terraform/" +:+ module_name +:+ ".tf") w)).
Proof.
  split; [by vm_compute|]. split; [by vm_compute|].
  intros Hall.
  destruct (Hall "web" "git::web" [("Audit", "222222222222")] ["eu-west-2"]
              [Var "ratio" VOther] [] fresh) as [text Htext].
  vm_compute in Htext. discriminate Htext.
Qed.

(** ** The value formatter *)

Lemma format_value_flat_list (vs : list value) (indent : nat) :
  forallb (λ v, negb (is_container v)) vs = true →
  format_value (VList vs) indent
  = let* parts := mapM (λ v, format_value v (S indent)) vs in
    let* inner := join ", " parts in
    Ok (PStr ("[" +:+ inner +:+ "]")).
Proof. intros Hflat. simpl. by rewrite Hflat. Qed.

Lemma join_int (sep : string) (z : Z) (parts : list pyobj) :
  PInt z ∈ parts → join sep parts = Raise TypeError.
Proof.
  unfold join. induction parts as [|part parts IH]; intros Hin.
  - by apply elem_of_nil in Hin.
  - simpl. destruct part as [s|z']; [|done]. simpl.
    apply elem_of_cons in Hin as [Heq|Hin]; [done|].
    specialize (IH Hin).
    by destruct (mapM expect_str parts) as [strs|e].
Qed.

Lemma format_scalar (v : value) (indent : nat) :
  negb (is_container v) = true →
  format_value v indent = Raise TypeError
  ∨ (∃ s, format_value v indent = Ok (PStr s) ∧ ∀ z, v ≠ VInt z)
  ∨ ∃ z, v = VInt z ∧ format_value v indent = Ok (PInt z).
Proof.
  intros Hv. destruct v as [s|b|z|l|kvs|]; try done.
  - right. left. simpl. destruct (startswith s "module."); by eexists.
  - right. left. by eexists.
  - right. right. by eexists.
  - by left.
Qed.

Lemma format_scalars_raise (indent : nat) (vs : list value) (e : exn) :
  forallb (λ v, negb (is_container v)) vs = true →
  mapM (λ v, format_value v indent) vs = Raise e → e = TypeError.
Proof.
  induction vs as [|v vs IH]; intros Hflat He; [done|].
  simpl in Hflat. apply andb_prop in Hflat as [Hv Hflat]. simpl in He.
  destruct (format_scalar v indent Hv) as [Hr|[(s & Hs & _)|(z & _ & Hz)]].
  - rewrite Hr in He. simpl in He. congruence.
  - rewrite Hs in He. simpl in He.
    destruct (mapM (λ v, format_value v indent) vs); [done|].
    simpl in He. injection He as <-. by apply IH.
  - rewrite Hz in He. simpl in He.
    destruct (mapM (λ v, format_value v indent) vs); [done|].
    simpl in He. injection He as <-. by apply IH.
Qed.

Lemma format_scalars_int (z : Z) (indent : nat) (vs : list value) :
  forallb (λ v, negb (is_container v)) vs = true → VInt z ∈ vs →
  mapM (λ v, format_value v indent) vs = Raise TypeError
  ∨ ∃ parts, mapM (λ v, format_value v indent) vs = Ok parts ∧ PInt z ∈ parts.
Proof.
  intros Hflat Hin.
  destruct (mapM (λ v, format_value v indent) vs) as [parts|e] eqn:Hrun.
  - right. exists parts. split; [done|].
    revert parts Hflat Hin Hrun.
    induction vs as [|v vs IH]; intros parts Hflat Hin Hrun.
    { by apply elem_of_nil in Hin. }
    simpl in Hflat. apply andb_prop in Hflat as [Hv Hflat]. simpl in Hrun.
    destruct (format_value v indent) as [part|] eqn:Hpart; [|done].
    simpl in Hrun.
    destruct (mapM (λ v, format_value v indent) vs) as [rest|]; [|done].
    simpl in Hrun. injection Hrun as <-.
    apply elem_of_cons in Hin as [<-|Hin].
    + simpl in Hpart. injection Hpart as <-. by left.
    + right. by apply IH.
  - left. f_equal. by apply (format_scalars_raise indent vs).
Qed.

Lemma mapM_cons {A B} (f : A → result B) (x : A) (xs : list A) :
  mapM f (x :: xs)
  = let* y := f x in let* ys := mapM f xs in Ok (y :: ys).
Proof. reflexivity. Qed.

Lemma join_strs (sep : string) (texts : list string) :
  join sep (PStr <$> texts) = Ok (String.concat sep texts).
Proof.
  unfold join.
  assert (H : mapM expect_str (PStr <$> texts) = Ok texts).
  { induction texts as [|text texts IH]; [done|].
    rewrite fmap_cons, mapM_cons, IH. done. }
  by rewrite H.
Qed.

(** A list of strings and booleans is rendered on one line. *)
Lemma format_value_flat_list_of_text (vs : list value) (indent : nat) :
  Forall (λ v, ∃ text, format_value v (S indent) = Ok (PStr text)) vs →
  forallb (λ v, negb (is_container v)) vs = true →
  ∃ texts,
    Forall2 (λ v text, format_value v (S indent) = Ok (PStr text)) vs texts
    ∧ format_value (VList vs) indent
      = Ok (PStr ("[" +:+ String.concat ", " texts +:+ "]")).
Proof.
  intros Htext Hflat. rewrite format_value_flat_list by done. clear Hflat.
  assert (H : ∃ texts,
    Forall2 (λ v text, format_value v (S indent) = Ok (PStr text)) vs texts
    ∧ mapM (λ v, format_value v (S indent)) vs = Ok (PStr <$> texts)).
  { induction Htext as [|v vs [text Hv] _ (texts & Hall & Hrun)].
    - by exists [].
    - exists (text :: texts). split; [by constructor|].
      simpl. by rewrite Hv, Hrun. }
  destruct H as (texts & Hall & ->). exists texts. split; [done|].
  unfold rbind at 1. by rewrite join_strs.
Qed.

(** Where the formatted value is interpolated into a line (an element of
    a nested list, a value of a mapping), an integer is rendered. *)
Lemma format_value_int_interpolated :
  format_value (VList [VList []; VInt 3]) 0
  = Ok (PStr (strcat ["["; nl; "    []"; ","; nl; "    3"; nl; "  ]"]))
  ∧ format_value (VDict [("port", VInt 443)]) 0
    = Ok (PStr (strcat ["{"; nl; "    port = 443"; nl; "  }"])).
Proof. split; reflexivity. Qed.

(** C6, where the code departs from it: a list of scalars that holds an
    integer is not rendered; [format_value] hands the [int] itself to
    [str.join], which raises [TypeError]. *)
Theorem format_value_flat_list_with_int
    (vs : list value) (z : Z) (indent : nat) :
  forallb (λ v, negb (is_container v)) vs = true → VInt z ∈ vs →
  format_value (VList vs) indent = Raise TypeError.
Proof.
  intros Hflat Hin. rewrite format_value_flat_list by done.
  destruct (format_scalars_int z (S indent) vs Hflat Hin)
    as [->|(parts & -> & Hparts)]; [done|].
  simpl. by rewrite (join_int _ z).
Qed.

Lemma format_value_flat_list_with_int_witness :
  format_value (VList [VInt 80; VInt 443]) 0 = Raise TypeError.
Proof.
  apply (format_value_flat_list_with_int [VInt 80; VInt 443] 80 0).
  - reflexivity.
  - by left.
Defined.

(** ** The deployment loop *)

Section deploy_properties.

Variable set_add : string → list string → list string.

Lemma exclude_step_frame (shared copy : loc) (target : odict.t (list string))
    (w : world) :
  files (exclude_step shared copy target w).2 = files w
  ∧ ALL_REGIONS (exclude_step shared copy target w).2 = ALL_REGIONS w.
Proof.
  unfold exclude_step.
  destruct (odict.mem "excludedAccounts" target); [|done].
  by destruct (default [] (odict.get "excludedAccounts" target)).
Qed.

Lemma validate_dependencies_missing
    (module_name d : string) (dependencies all_modules : list string) :
  d ∈ dependencies → d ∉ all_modules →
  ∃ e, validate_dependencies module_name dependencies all_modules = Raise e.
Proof.
  unfold validate_dependencies. generalize tt.
  induction dependencies as [|dependent dependencies IH]; intros u Hin Hout.
  - by apply elem_of_nil in Hin.
  - simpl. unfold py_in. destruct (decide (dependent ∈ all_modules)) as [Hd|Hd].
    + rewrite bool_decide_eq_true_2 by done. simpl. apply IH; [|done].
      apply elem_of_cons in Hin as [->|Hin]; done.
    + rewrite bool_decide_eq_false_2 by done. by eexists.
Qed.

Lemma create_module_code_frame
    (module_name module_source : string) (ids : odict.t string)
    (regions : list string) (variables : list variable)
    (dependencies : list string) (w : world) :
  let w' := (create_module_code module_name module_source ids regions
               variables dependencies w).2 in
  ALL_REGIONS w' = ALL_REGIONS w ∧ ∃ rest, files w' = files w ++ rest.
Proof.
  unfold create_module_code. destruct (foldM _ _ _) as [module_code|e]; simpl.
  - split; [done|]. by eexists.
  - split; [done|]. exists []. by rewrite app_nil_r.
Qed.

Lemma create_module_code_heap
    (module_name module_source : string) (ids : odict.t string)
    (regions : list string) (variables : list variable)
    (dependencies : list string) (w : world) :
  heap (create_module_code module_name module_source ids regions
          variables dependencies w).2 = heap w.
Proof. unfold create_module_code. by destruct (foldM _ _ _). Qed.

Lemma mem_get {V} (k : string) (v : V) (d : odict.t V) :
  odict.get k d = Some v → odict.mem k d = true.
Proof.
  intros Hget. unfold odict.mem. apply bool_decide_eq_true_2.
  destruct (decide (k ∈ odict.keys d)) as [|Hout]; [done|].
  apply get_None_keys in Hout. congruence.
Qed.

(** A pass whose module declares a non-empty [excludedAccounts] list leaves
    the filtered tree in the shared object. *)
Lemma module_pass_shared_tree
    (shared : loc) (ids : odict.t string) (all_modules : list string)
    (m : tf_module) (w : world) (excluded : list string) :
  shared < length (heap w) →
  odict.get "excludedAccounts" (deploymentTargets m) = Some excluded →
  excluded ≠ [] →
  deref (module_pass set_add shared ids all_modules m w).2 shared
  = filter_excluded_accounts (deref w shared) excluded.
Proof.
  intros Hshared Hget Hne.
  unfold module_pass, deepcopy, exclude_step.
  rewrite (mem_get _ _ _ Hget), Hget. simpl default.
  destruct excluded as [|entry excluded]; [done|].
  unfold filter_excluded_accounts_ref.
  set (tree := filter_excluded_accounts _ _).
  set (wp := set_heap (<[shared := tree]> _) _).
  assert (Hwp : deref wp shared = filter_excluded_accounts (deref w shared)
                                    (entry :: excluded)).
  { unfold deref at 1. simpl.
    rewrite list_lookup_insert_eq by (rewrite length_app; simpl; lia).
    unfold tree, deref. simpl. by rewrite lookup_app_l by done. }
  destruct (foldM _ _ _) as [resolved|e]; [|done].
  destruct (validate_dependencies _ _ _) as [[]|e]; [|done].
  rewrite create_provider_code_blocks.
  pose proof (create_module_code_heap (name m) (source m) resolved (regions m)
                (variables m) (dependsOn m)
                (write_to_file (provider_blocks (ALL_REGIONS wp) ids)
                   "terraform/provider.tf" wp)) as Hheap.
  destruct (create_module_code _ _ _ _ _ _ _) as [[text|e] wq];
    simpl in *; unfold deref in *; by rewrite Hheap.
Qed.

(** What one pass does to the world: up to the generators it changes no
    file and adds the module's regions to [ALL_REGIONS]; it then either
    leaves [deploy_targets], or writes the provider file from [ALL_REGIONS]
    and the organisation-wide mapping and hands over to
    [create_module_code]. *)
Lemma module_pass_outcome
    (shared : loc) (ids : odict.t string) (all_modules : list string)
    (m : tf_module) (w : world) :
  ∃ wp,
    files wp = files w
    ∧ ALL_REGIONS wp
      = foldl (λ all region, set_add region all) (ALL_REGIONS w) (regions m)
    ∧ ((∃ e, module_pass set_add shared ids all_modules m w = (Return e, wp))
       ∨ (validate_dependencies (name m) (dependsOn m) all_modules = Ok tt
          ∧ ∃ resolved,
              let wq :=
                write_to_file (provider_blocks (ALL_REGIONS wp) ids)
                  "terraform/provider.tf" wp in
              module_pass set_add shared ids all_modules m w
              = match create_module_code (name m) (source m) resolved
                        (regions m) (variables m) (dependsOn m) wq with
                | (Ok _, w') => (Next, w')
                | (Raise e, w') => (Uncaught e, w')
                end)).
Proof.
  unfold module_pass, deepcopy.
  set (w1 := set_heap _ (add_regions set_add (regions m) w)).
  destruct (exclude_step_frame shared (length (heap (add_regions set_add (regions m) w)))
              (deploymentTargets m) w1) as [Hfiles Hregions].
  destruct (exclude_step shared _ (deploymentTargets m) w1) as [copy wp].
  simpl in Hfiles, Hregions.
  exists wp. split; [done|]. split; [done|].
  destruct (foldM _ _ _) as [resolved|e]; [|left; by eexists].
  destruct (validate_dependencies _ _ _) as [[]|e]; [|left; by eexists].
  right. split; [done|]. exists resolved. cbv zeta.
  by rewrite create_provider_code_blocks.
Qed.

Lemma module_loop_app
    (shared : loc) (ids : odict.t string) (all_modules : list string)
    (pre rest : list tf_module) (w : world) :
  module_loop set_add shared ids all_modules (pre ++ rest) w
  = match module_loop set_add shared ids all_modules pre w with
    | (Next, w1) => module_loop set_add shared ids all_modules rest w1
    | stop => stop
    end.
Proof.
  revert w. induction pre as [|m pre IH]; intros w.
  - simpl. by destruct (module_loop _ _ _ _ rest w) as [[] ?].
  - simpl. destruct (module_pass _ _ _ _ m w) as [[| |] w']; [apply IH|done..].
Qed.

(** C7. A module that declares a dependency on a name no module of the run
    carries makes its pass leave [deploy_targets] through the logged
    exception, with no call of the file sink in that pass; the run ends
    there, so the files written are those of the passes before it and the
    pass is not run again. *)
Theorem unknown_dependency_writes_nothing
    (built : OrgTree) (pre post : list tf_module) (m : tf_module)
    (d : string) (w : world) :
  let tf_modules := pre ++ m :: post in
  let all_modules := name <$> tf_modules in
  d ∈ dependsOn m → d ∉ all_modules →
  (∀ shared ids w1,
     ∃ e w2, module_pass set_add shared ids all_modules m w1 = (Return e, w2)
             ∧ files w2 = files w1)
  ∧ (deploy_targets set_add built tf_modules w).1 ≠ Next
  ∧ files (deploy_targets set_add built tf_modules w).2
    = files (module_loop set_add (length (heap w)) (all_account_ids built)
               all_modules pre (set_heap (heap w ++ [built]) w)).2.
Proof.
  intros tf_modules all_modules Hin Hout.
  assert (Hpass : ∀ shared ids w1,
    ∃ e w2, module_pass set_add shared ids all_modules m w1 = (Return e, w2)
            ∧ files w2 = files w1).
  { intros shared ids w1.
    destruct (module_pass_outcome shared ids all_modules m w1)
      as (wp & Hfiles & _ & [[e He]|[Hok _]]).
    - by exists e, wp.
    - destruct (validate_dependencies_missing (name m) d (dependsOn m)
                  all_modules Hin Hout) as [e He]. congruence. }
  split; [done|].
  unfold deploy_targets, deref. fold all_modules. unfold tf_modules.
  rewrite module_loop_app.
  replace (default [] (heap (set_heap (heap w ++ [built]) w) !! length (heap w)))
    with built by (simpl; by rewrite list_lookup_middle).
  destruct (module_loop _ _ _ _ pre _) as [[| |] w1]; [|done..].
  simpl. destruct (Hpass (length (heap w)) (all_account_ids built) w1)
    as (e & w2 & -> & Hfiles).
  done.
Qed.

End deploy_properties.

(** ** The provider file and the shared tree across passes *)



Lemma keys_record_accounts (l : list account) (accounts : odict.t string) (n : string) :
  n ∈ odict.keys (foldl record_account accounts l)
  ↔ n ∈ odict.keys accounts ∨ ∃ a, a ∈ l ∧ Name a = n.
Proof.
  revert accounts. induction l as [|a l IH]; intros accounts.
  - simpl. split; [by left|]. intros [?|(a & Ha & _)]; [done|].
    by apply elem_of_nil in Ha.
  - simpl. rewrite IH. unfold record_account. rewrite keys_set. split.
    + intros [[->|?]|(b & Hb & Hn)]; [right|by left|right].
      * exists a. split; [by left|done].
      * exists b. split; [by right|done].
    + intros [?|(b & Hb & Hn)]; [left; by right|].
      apply elem_of_cons in Hb as [->|Hb]; [left; by left|].
      right. by exists b.
Qed.


Section provider_regions.

Variable set_add : string → list string → list string.

(** Adding to the set makes the region a member and keeps the others. *)
Hypothesis set_add_elem :
  ∀ region all x, x ∈ set_add region all ↔ x = region ∨ x ∈ all.





End provider_regions.



Lemma unknown_dependency_writes_nothing_witness :
  (∀ shared ids w1,
     ∃ e w2,
       module_pass set_add_ordered shared ids
         (name <$> [baseline] ++ orphan :: [logging]) orphan w1 = (Return e, w2)
       ∧ files w2 = files w1)
  ∧ (deploy_targets set_add_ordered org_tree
       ([baseline] ++ orphan :: [logging]) fresh).1 ≠ Next
  ∧ files (deploy_targets set_add_ordered org_tree
             ([baseline] ++ orphan :: [logging]) fresh).2
    = files (module_loop set_add_ordered (length (heap fresh))
               (all_account_ids org_tree)
               (name <$> [baseline] ++ orphan :: [logging]) [baseline]
               (set_heap (heap fresh ++ [org_tree]) fresh)).2.
Proof.
  apply (unknown_dependency_writes_nothing set_add_ordered org_tree
           [baseline] [logging] orphan "moduleA" fresh).
  - apply (bool_decide_unpack _); vm_compute; exact I.
  - apply (bool_decide_unpack _); vm_compute; exact I.
Defined.

(** C1, where the code departs from it: [deploy_targets] passes the shared
    tree, not the copy it has just made, to [filter_excluded_accounts], so
    every pass with a non-empty exclusion list leaves the filtered tree in
    the shared object.  After the pass of [baseline], which excludes Audit,
    the shared tree has lost the Audit account; the pass of [logging] copies
    that tree, resolves no account and writes an empty module file, whereas
    run on its own it writes the block for Audit. *)
Theorem exclusion_leaks_into_later_pass
    (set_add : string → list string → list string) :
  let run := deploy_targets set_add org_tree [baseline; logging] fresh in
  let alone := deploy_targets set_add org_tree [logging] fresh in
  (run.1 = Next
   ∧ deref run.2 0 = filter_excluded_accounts org_tree ["Audit"]
   ∧ odict.get "Security" (deref run.2 0) = Some []
   ∧ odict.get "Security" org_tree = Some [Account "Audit" "222222222222"]
   ∧ last (files run.2) = Some ("terraform/logging.tf", "")
   ∧ last (files alone.2)
     = Some ("terraform/logging.tf",
             module_block "logging" "git::logging" "" [] "eu-west-1" "Audit"))
  ∧ (∀ shared ids all_modules m w excluded,
       shared < length (heap w) →
       odict.get "excludedAccounts" (deploymentTargets m) = Some excluded →
       excluded ≠ [] →
       deref (module_pass set_add shared ids all_modules m w).2 shared
       = filter_excluded_accounts (deref w shared) excluded).
Proof.
  split.
  - vm_compute. by repeat split.
  - intros shared ids all_modules m w excluded.
    apply module_pass_shared_tree.
Qed.

(** * Further properties *)

(** ** The tree walk *)

Lemma directory_nested_ind (P : directory → Prop) :
  (∀ ou_id ou_name account_pages ou_pages children,
     Forall (Forall P) ou_pages →
     P (OU ou_id ou_name account_pages ou_pages children)) →
  ∀ org, P org.
Proof.
  intros Hnode. fix IH 1. intros [ou_id ou_name account_pages ou_pages children].
  apply Hnode.
  induction ou_pages as [|page ou_pages IHpages]; constructor; [|exact IHpages].
  induction page as [|ou page IHpage]; constructor; [apply IH|exact IHpage].
Qed.

Lemma accounts_of_pages (pages : list (list account)) (accounts : list account) :
  foldl (λ accounts page, accounts ++ page) accounts pages
  = accounts ++ concat pages.
Proof.
  revert accounts. induction pages as [|page pages IH]; intros accounts.
  - by rewrite app_nil_r.
  - simpl. by rewrite IH, <- app_assoc.
Qed.

Lemma update_app {V} (d l1 l2 : odict.t V) :
  odict.update d (l1 ++ l2) = odict.update (odict.update d l1) l2.
Proof. unfold odict.update, odict.items. apply foldl_app. Qed.

Lemma update_cons {V} (d : odict.t V) (k : string) (v : V) (l : odict.t V) :
  odict.update d ((k, v) :: l) = odict.update (odict.set k v d) l.
Proof. done. Qed.

Section walk_loops.

Variable recurse : directory → string → OrgTree → walk OrgTree.
Variables (name : string) (children : list string).

Let entries (ou : directory) : list (string * list account) :=
  ou_entries ou (child_path name (simple_name ou)).
Let listed (ou : directory) : bool :=
  well_listed ou (child_path name (simple_name ou)).
Let recursed (ou : directory) : Prop :=
  ∀ name accounts_by_ou,
    recurse ou name accounts_by_ou
    = if well_listed ou name
      then Walked (odict.update accounts_by_ou (ou_entries ou name))
      else UnboundLocalError.

Lemma ous_loop_named (page : list directory) (ou_name : option string)
    (accounts_by_ou : OrgTree) :
  (∀ child ou_name,
     next_ou_name name children child ou_name = Some (child_path name child)) →
  Forall recursed page →
  walked_tree (ous_loop recurse name children page (ou_name, accounts_by_ou))
  = if forallb listed page
    then Walked (odict.update accounts_by_ou (page ≫= entries))
    else UnboundLocalError.
Proof.
  intros Hname Hrec. revert ou_name accounts_by_ou.
  induction Hrec as [|ou page Hou _ IH]; intros ou_name accounts_by_ou; [done|].
  simpl. rewrite Hname, Hou. fold (listed ou).
  destruct (listed ou); [|done]. simpl.
  rewrite IH. destruct (forallb listed page); [|done].
  by rewrite update_app.
Qed.

Lemma pages_loop_named (pages : list (list directory)) (ou_name : option string)
    (accounts_by_ou : OrgTree) :
  (∀ child ou_name,
     next_ou_name name children child ou_name = Some (child_path name child)) →
  Forall (Forall recursed) pages →
  walked_tree (pages_loop recurse name children pages (ou_name, accounts_by_ou))
  = if forallb (λ page, forallb listed page) pages
    then Walked (odict.update accounts_by_ou (page ← pages; page ≫= entries))
    else UnboundLocalError.
Proof.
  intros Hname Hrec. revert ou_name accounts_by_ou.
  induction Hrec as [|page pages Hpage _ IH]; intros ou_name accounts_by_ou; [done|].
  simpl.
  pose proof (ous_loop_named page ou_name accounts_by_ou Hname Hpage) as Hloop.
  destruct (ous_loop recurse name children page (ou_name, accounts_by_ou))
    as [[ou_name' accounts_by_ou']|]; simpl in Hloop.
  - destruct (forallb listed page); [|done]. injection Hloop as ->.
    simpl. rewrite IH.
    destruct (forallb (λ page, forallb listed page) pages); [|done].
    by rewrite update_app.
  - by destruct (forallb listed page).
Qed.

Lemma pages_loop_unnamed (pages : list (list directory)) (accounts_by_ou : OrgTree) :
  name ≠ NAME_OF_OU_ROOT → children = [] →
  pages_loop recurse name children pages (None, accounts_by_ou)
  = match concat pages with
    | [] => Walked (None, accounts_by_ou)
    | _ :: _ => UnboundLocalError
    end.
Proof.
  intros Hname ->. induction pages as [|page pages IH]; [done|].
  simpl. destruct page as [|ou page]; [apply IH|].
  simpl. unfold next_ou_name. by rewrite decide_False.
Qed.

End walk_loops.

Lemma no_ou_in_pages {B} (f : directory → bool) (g : directory → list B)
    (pages : list (list directory)) :
  concat pages = [] →
  forallb (λ page, forallb f page) pages = true
  ∧ (page ← pages; page ≫= g) = [].
Proof.
  induction pages as [|page pages IH]; [done|].
  simpl. intros Hnil. apply app_eq_nil in Hnil as [-> Hnil].
  destruct (IH Hnil) as [Hall Hbind]. split; [done|].
  exact Hbind.
Qed.

Lemma get_all_accounts_recursive_walk
    (org : directory) (name : string) (accounts_by_ou : OrgTree) :
  get_all_accounts_recursive org name accounts_by_ou
  = if well_listed org name
    then Walked (odict.update accounts_by_ou (ou_entries org name))
    else UnboundLocalError.
Proof.
  revert name accounts_by_ou. induction org
    as [ou_id ou_name account_pages ou_pages children IH]
    using directory_nested_ind.
  intros name accounts_by_ou.
  change (get_all_accounts_recursive
            (OU ou_id ou_name account_pages ou_pages children) name accounts_by_ou)
    with (walked_tree
            (pages_loop
               (λ ou ou_name accounts_by_ou,
                  get_all_accounts_recursive ou ou_name accounts_by_ou)
               name children ou_pages
               (None,
                odict.set name
                  (foldl (λ accounts page, accounts ++ page) [] account_pages)
                  accounts_by_ou))).
  rewrite accounts_of_pages. simpl app.
  cbn [well_listed ou_entries]. rewrite update_cons.
  destruct (decide (name = NAME_OF_OU_ROOT ∨ children ≠ [])) as [Hnamed|Hunnamed].
  - rewrite pages_loop_named; [| |done].
    + assert (Hhead : match concat ou_pages with
                      | [] => true
                      | _ :: _ =>
                          bool_decide (name = NAME_OF_OU_ROOT)
                          || match children with [] => false | _ :: _ => true end
                      end = true).
      { destruct (concat ou_pages); [done|].
        destruct Hnamed as [->|Hch]; [done|].
        destruct children; [done|]. apply orb_true_r. }
      by rewrite Hhead.
    + intros child ou_name'. unfold next_ou_name, child_path.
      destruct (decide (name = NAME_OF_OU_ROOT)); [done|].
      destruct Hnamed as [?|Hch]; [done|]. by destruct children.
  - assert (Hname : name ≠ NAME_OF_OU_ROOT) by tauto.
    assert (Hch : children = []).
    { destruct children; [done|]. destruct Hunnamed. by right. }
    rewrite pages_loop_unnamed by done.
    rewrite (bool_decide_eq_false_2 _ Hname). subst children.
    destruct (concat ou_pages) as [|ou rest] eqn:Hous; [|done].
    destruct (no_ou_in_pages (B:=string * list account)
                (λ ou, well_listed ou (child_path name (simple_name ou)))
                (λ ou, ou_entries ou (child_path name (simple_name ou)))
                ou_pages Hous) as [-> ->].
    done.
Qed.

(** X1. The walk returns exactly when every OU whose path is not the root
    marker and that has child OUs gets a non-empty answer from
    [list_children] ([well_listed]); the dictionary it returns
    is the given one updated, in preorder, with the path of every OU mapped
    to the accounts directly inside it (its pages of accounts
    concatenated).  Otherwise it stops on the unassigned [ou_name]. *)
Theorem get_all_accounts_recursive_spec
    (org : directory) (name : string) (accounts_by_ou : OrgTree) :
  (∀ tree,
     get_all_accounts_recursive org name accounts_by_ou = Walked tree
     ↔ well_listed org name = true
       ∧ tree = odict.update accounts_by_ou (ou_entries org name))
  ∧ (get_all_accounts_recursive org name accounts_by_ou = UnboundLocalError
     ↔ well_listed org name = false).
Proof.
  rewrite get_all_accounts_recursive_walk.
  destruct (well_listed org name); split.
  - intros tree. split; [intros [= <-]; done|]. by intros [_ ->].
  - split; [done|done].
  - intros tree. split; [done|]. by intros [? _].
  - done.
Qed.

Lemma get_update_last {V} (k : string) (l : list (string * V)) (d : odict.t V) :
  odict.get k (odict.update d l)
  = match last (filter (λ kv, kv.1 = k) l) with
    | Some kv => Some kv.2
    | None => odict.get k d
    end.
Proof.
  revert d. induction l as [|[k' v] l IH]; intros d; [done|].
  rewrite update_cons, IH, get_set.
  destruct (decide (k' = k)) as [->|Hne].
  - rewrite filter_cons_True, last_cons by done.
    destruct (last (filter (λ kv, kv.1 = k) l)); [done|].
    by rewrite decide_True.
  - rewrite filter_cons_False by done.
    destruct (last (filter (λ kv, kv.1 = k) l)); [done|].
    rewrite decide_False; [done|]. by intros ->.
Qed.

Lemma keys_update {V} (l d : odict.t V) (k : string) :
  k ∈ odict.keys (odict.update d l) ↔ k ∈ odict.keys d ∨ k ∈ odict.keys l.
Proof.
  revert d. induction l as [|[k' v] l IH]; intros d.
  - simpl. split; [by left|]. intros [?|H]; [done|]. by apply elem_of_nil in H.
  - rewrite update_cons, IH, keys_set. unfold odict.keys. simpl.
    rewrite elem_of_cons. tauto.
Qed.

Lemma update_distinct {V} (l d : odict.t V) :
  NoDup (odict.keys l) → (∀ k, k ∈ odict.keys l → k ∉ odict.keys d) →
  odict.update d l = d ++ l.
Proof.
  revert d. induction l as [|[k v] l IH]; intros d Hnd Hfresh.
  - by rewrite app_nil_r.
  - unfold odict.keys in *. simpl in *. apply NoDup_cons in Hnd as [Hk Hnd].
    rewrite update_cons, set_fresh by (apply Hfresh; by left).
    rewrite IH; [by rewrite <- app_assoc|done|].
    intros k' Hk'. unfold odict.keys. rewrite fmap_app, not_elem_of_app. split.
    + apply Hfresh. by right.
    + simpl. rewrite list_elem_of_singleton. by intros ->.
Qed.

(** X2. When the walk from the root returns, every OU of the organisation
    has its path among the keys, an OU without accounts included; and when
    the paths of the OUs are pairwise distinct the tree built from the
    empty dictionary is exactly the preorder sequence of (path, direct
    accounts). *)
Theorem get_all_accounts_recursive_entries (org : directory) (tree : OrgTree) :
  get_all_accounts_recursive org NAME_OF_OU_ROOT odict.empty = Walked tree →
  (∀ path, path ∈ odict.keys (ou_entries org NAME_OF_OU_ROOT) ↔ path ∈ odict.keys tree)
  ∧ (NoDup (odict.keys (ou_entries org NAME_OF_OU_ROOT)) →
     tree = ou_entries org NAME_OF_OU_ROOT).
Proof.
  rewrite get_all_accounts_recursive_walk.
  destruct (well_listed org NAME_OF_OU_ROOT); [|done]. intros [= <-]. split.
  - intros path. rewrite keys_update. split; [by right|].
    intros [H|?]; [|done]. by apply elem_of_nil in H.
  - intros Hnd. rewrite update_distinct; [done|done|].
    intros k _. apply not_elem_of_nil.
Qed.

Lemma get_all_accounts_recursive_entries_witness :
  (∀ path, path ∈ odict.keys (ou_entries example_org NAME_OF_OU_ROOT)
           ↔ path ∈ odict.keys example_org_tree)
  ∧ (NoDup (odict.keys (ou_entries example_org NAME_OF_OU_ROOT)) →
     example_org_tree = ou_entries example_org NAME_OF_OU_ROOT).
Proof.
  apply (get_all_accounts_recursive_entries example_org example_org_tree).
  vm_compute. reflexivity.
Defined.

(** X3. When two OUs receive the same path (an OU named root directly
    below the root, or a name that contains a slash), the later one in
    preorder takes the entry: a path maps to the direct accounts of the last
    OU with that path, and to what the given dictionary held when no OU has
    it. *)
Theorem get_all_accounts_recursive_last_wins
    (org : directory) (name path : string) (accounts_by_ou tree : OrgTree) :
  get_all_accounts_recursive org name accounts_by_ou = Walked tree →
  odict.get path tree
  = match last (filter (λ kv, kv.1 = path) (ou_entries org name)) with
    | Some kv => Some kv.2
    | None => odict.get path accounts_by_ou
    end.
Proof.
  rewrite get_all_accounts_recursive_walk.
  destruct (well_listed org name); [|done]. intros [= <-].
  apply get_update_last.
Qed.

Lemma get_all_accounts_recursive_last_wins_witness :
  let org :=
    OU "r-1" "Root" [[Account "Management" "111111111111"]]
      [[OU "ou-1" "root" [[Account "Sandbox" "444444444444"]] [] []]] ["ou-1"] in
  odict.get "root" [("root", [Account "Sandbox" "444444444444"])]
  = match last (filter (λ kv, kv.1 = "root") (ou_entries org NAME_OF_OU_ROOT)) with
    | Some kv => Some kv.2
    | None => odict.get "root" odict.empty
    end.
Proof.
  apply (get_all_accounts_recursive_last_wins
           (OU "r-1" "Root" [[Account "Management" "111111111111"]]
              [[OU "ou-1" "root" [[Account "Sandbox" "444444444444"]] [] []]]
              ["ou-1"])
           NAME_OF_OU_ROOT "root" odict.empty
           [("root", [Account "Sandbox" "444444444444"])]).
  vm_compute. reflexivity.
Defined.

(** X4. For an OU below the root that has a child OU while [list_children]
    answers with no child, the walk assigns [ou_name] in neither branch and
    stops with [UnboundLocalError] at the first child, whatever the
    dictionary held. *)
Theorem get_all_accounts_recursive_unbound
    (ou_id ou_name name : string) (account_pages : list (list account))
    (ou_pages : list (list directory)) (accounts_by_ou : OrgTree) :
  name ≠ NAME_OF_OU_ROOT → concat ou_pages ≠ [] →
  get_all_accounts_recursive (OU ou_id ou_name account_pages ou_pages []) name
    accounts_by_ou
  = UnboundLocalError.
Proof.
  intros Hname Hous. rewrite get_all_accounts_recursive_walk.
  cbn [well_listed]. destruct (concat ou_pages); [done|].
  by rewrite (bool_decide_eq_false_2 _ Hname).
Qed.

Lemma get_all_accounts_recursive_unbound_witness :
  get_all_accounts_recursive
    (OU "ou-1" "Workloads" [] [[OU "ou-2" "Dev" [] [] []]] []) "Workloads"
    odict.empty
  = UnboundLocalError.
Proof.
  apply (get_all_accounts_recursive_unbound "ou-1" "Workloads" "Workloads"
           [] [[OU "ou-2" "Dev" [] [] []]] odict.empty).
  - apply (bool_decide_unpack _); vm_compute; exact I.
  - discriminate.
Defined.

(** ** The entry point *)

Lemma get_all_accounts_concat (pages : list (list account)) :
  get_all_accounts pages = foldl record_account odict.empty (concat pages).
Proof.
  unfold get_all_accounts. generalize (@odict.empty string).
  induction pages as [|page pages IH]; intros accounts; [done|].
  simpl. by rewrite foldl_app, IH.
Qed.

Section entry_properties.

Variable set_add : string → list string → list string.

Lemma module_pass_appends
    (shared : loc) (ids : odict.t string) (all_modules : list string)
    (m : tf_module) (w : world) :
  ∃ rest, files (module_pass set_add shared ids all_modules m w).2
          = files w ++ rest.
Proof.
  destruct (module_pass_outcome set_add shared ids all_modules m w)
    as (wp & Hfiles & _ & [[e ->]|[_ (resolved & ->)]]).
  - exists []. simpl. by rewrite app_nil_r.
  - destruct (create_module_code_frame (name m) (source m) resolved (regions m)
                (variables m) (dependsOn m)
                (write_to_file (provider_blocks (ALL_REGIONS wp) ids)
                   "terraform/provider.tf" wp)) as [_ [rest Hrest]].
    cbv zeta in Hrest.
    destruct (create_module_code _ _ _ _ _ _ _) as [[text|e] wq];
      simpl in *; rewrite Hrest, Hfiles, <- app_assoc; by eexists.
Qed.

Lemma module_loop_appends
    (shared : loc) (ids : odict.t string) (all_modules : list string)
    (tf_modules : list tf_module) (w : world) :
  ∃ rest, files (module_loop set_add shared ids all_modules tf_modules w).2
          = files w ++ rest.
Proof.
  revert w. induction tf_modules as [|m tf_modules IH]; intros w.
  - exists []. simpl. by rewrite app_nil_r.
  - simpl. destruct (module_pass_appends shared ids all_modules m w) as [r1 H1].
    destruct (module_pass set_add shared ids all_modules m w) as [[| |] w'];
      simpl in H1; [|by exists r1..].
    destruct (IH w') as [r2 H2]. exists (r1 ++ r2).
    by rewrite H2, H1, <- app_assoc.
Qed.

(** X5. With no module declared, [main] writes three files and nothing
    else: the backend block, the provider blocks of every region of
    [describe_regions] paired with every account of [list_accounts] (for a
    name listed twice, the id listed last), and an empty main.tf; it walks
    no OU and leaves the region set as it was. *)
Theorem main_without_modules (env : environment) (w : world) :
  terraformModules env = [] →
  main set_add env w
  = (Returned,
     World (heap w) (ALL_REGIONS w)
       (files w
        ++ [ ("terraform/backend.tf", backend_code);
             ("terraform/provider.tf",
              provider_blocks (describe_regions env)
                (get_all_accounts (list_accounts env)));
             ("terraform/main.tf", "") ]))
  ∧ (∀ n, n ∈ odict.keys (get_all_accounts (list_accounts env))
          ↔ ∃ a, a ∈ concat (list_accounts env) ∧ Name a = n)
  ∧ (∀ n, odict.get n (get_all_accounts (list_accounts env))
          = Id <$> last_named n (concat (list_accounts env))).
Proof.
  intros Hnone. split; [|split].
  - unfold main. rewrite Hnone, create_provider_code_blocks.
    unfold create_empty_main_tf, create_backend_code, write_to_file. simpl.
    by rewrite <- !app_assoc.
  - intros n. rewrite get_all_accounts_concat, keys_record_accounts.
    split; [|by right]. intros [H|?]; [|done]. by apply elem_of_nil in H.
  - intros n. rewrite get_all_accounts_concat, record_accounts_last.
    by destruct (last_named n (concat (list_accounts env))).
Qed.

(** X6. Whatever the environment, the first file [main] writes is the
    backend block, and earlier writes stay; when modules are declared and
    the walk stops on the unassigned [ou_name], nothing else is written. *)
Theorem main_writes_backend_first (env : environment) (w : world) :
  (∃ rest, files (main set_add env w).2
           = files w ++ ("terraform/backend.tf", backend_code) :: rest)
  ∧ (terraformModules env ≠ [] →
     well_listed (organization env) NAME_OF_OU_ROOT = false →
     main set_add env w = (WalkFailed, create_backend_code w)).
Proof.
  split.
  - unfold main. destruct (terraformModules env) as [|m ms] eqn:Hms.
    + rewrite create_provider_code_blocks. simpl. eexists.
      by rewrite <- !app_assoc.
    + unfold deploy_targets_org.
      destruct (get_all_accounts_recursive _ _ _) as [built|]; [|by exists []].
      unfold deploy_targets.
      destruct (module_loop_appends (length (heap (create_backend_code w)))
                  (all_account_ids
                     (deref (set_heap (heap (create_backend_code w) ++ [built])
                               (create_backend_code w))
                        (length (heap (create_backend_code w)))))
                  (name <$> m :: ms) (m :: ms)
                  (set_heap (heap (create_backend_code w) ++ [built])
                     (create_backend_code w))) as [rest Hrest].
      destruct (module_loop _ _ _ _ _ _) as [f w']. simpl in *.
      exists rest. by rewrite Hrest, <- app_assoc.
  - intros Hms Hwalk. unfold main, deploy_targets_org.
    destruct (terraformModules env) as [|m ms]; [done|].
    by rewrite get_all_accounts_recursive_walk, Hwalk.
Qed.

End entry_properties.

Lemma main_without_modules_witness :
  main set_add_ordered teardown fresh
  = (Returned,
     World (heap fresh) (ALL_REGIONS fresh)
       (files fresh
        ++ [ ("terraform/backend.tf", backend_code);
             ("terraform/provider.tf",
              provider_blocks (describe_regions teardown)
                (get_all_accounts (list_accounts teardown)));
             ("terraform/main.tf", "") ]))
  ∧ (∀ n, n ∈ odict.keys (get_all_accounts (list_accounts teardown))
          ↔ ∃ a, a ∈ concat (list_accounts teardown) ∧ Name a = n)
  ∧ (∀ n, odict.get n (get_all_accounts (list_accounts teardown))
          = Id <$> last_named n (concat (list_accounts teardown))).
Proof.
  apply (main_without_modules set_add_ordered teardown fresh). reflexivity.
Defined.

(** ** Exclusion and resolution *)

Lemma py_in_app (x : string) (xs ys : list string) :
  py_in x (xs ++ ys) = py_in x xs || py_in x ys.
Proof.
  unfold py_in. apply eq_true_iff_eq.
  rewrite orb_true_iff, !bool_decide_eq_true, elem_of_app. done.
Qed.

Lemma kept_app (ou : string) (e1 e2 : list string) (a : account) :
  kept ou (e1 ++ e2) a = kept ou e1 a && kept ou e2 a.
Proof.
  unfold kept. rewrite !py_in_app.
  by destruct (py_in ou e1), (py_in ou e2), (py_in (Name a) e1),
    (py_in (Name a) e2).
Qed.

Lemma filter_kept_twice (ou : string) (e1 e2 : list string) (l : list account) :
  List.filter (kept ou e2) (List.filter (kept ou e1) l)
  = List.filter (kept ou (e1 ++ e2)) l.
Proof.
  induction l as [|a l IH]; [done|].
  simpl. rewrite kept_app. destruct (kept ou e1 a); simpl; [|done].
  destruct (kept ou e2 a); by rewrite IH.
Qed.

Lemma filter_excluded_accounts_keys (tree : OrgTree) (excluded : list string) :
  NoDup (odict.keys tree) →
  odict.keys (filter_excluded_accounts tree excluded) = odict.keys tree.
Proof.
  intros Hnd. rewrite filter_excluded_accounts_fmap by done.
  unfold odict.keys. by rewrite <- list_fmap_compose.
Qed.

Lemma filter_excluded_accounts_app
    (tree : OrgTree) (e1 e2 : list string) :
  NoDup (odict.keys tree) →
  filter_excluded_accounts (filter_excluded_accounts tree e1) e2
  = filter_excluded_accounts tree (e1 ++ e2).
Proof.
  intros Hnd.
  rewrite (filter_excluded_accounts_fmap (filter_excluded_accounts tree e1))
    by (by rewrite filter_excluded_accounts_keys).
  rewrite !filter_excluded_accounts_fmap by done.
  rewrite <- list_fmap_compose. apply list_fmap_ext.
  intros i [ou accounts] _. simpl. by rewrite filter_kept_twice.
Qed.

Lemma filter_excluded_accounts_nil (tree : OrgTree) :
  NoDup (odict.keys tree) → filter_excluded_accounts tree [] = tree.
Proof.
  intros Hnd. rewrite filter_excluded_accounts_fmap by done.
  rewrite <- (list_fmap_id tree) at 2. apply list_fmap_ext.
  intros i [ou accounts] _. simpl. f_equal.
  induction accounts as [|a accounts IH]; [done|]. simpl. by rewrite IH.
Qed.

(** X7. Filtering with one exclusion list and then with another gives the
    tree that filtering once with both lists gives. *)
Theorem filter_excluded_accounts_compose
    (tree : OrgTree) (excluded1 excluded2 : list string) :
  NoDup (odict.keys tree) →
  filter_excluded_accounts (filter_excluded_accounts tree excluded1) excluded2
  = filter_excluded_accounts tree (excluded1 ++ excluded2)
  ∧ NoDup (odict.keys (filter_excluded_accounts tree excluded1)).
Proof.
  intros Hnd. split; [by apply filter_excluded_accounts_app|].
  by rewrite filter_excluded_accounts_keys.
Qed.

Lemma filter_excluded_accounts_compose_witness :
  filter_excluded_accounts
    (filter_excluded_accounts workloads_tree ["Workloads/Pro"]) ["TestWorkload"]
  = filter_excluded_accounts workloads_tree (["Workloads/Pro"] ++ ["TestWorkload"])
  ∧ NoDup (odict.keys (filter_excluded_accounts workloads_tree ["Workloads/Pro"])).
Proof.
  apply (filter_excluded_accounts_compose workloads_tree
           ["Workloads/Pro"] ["TestWorkload"]).
  apply (bool_decide_unpack _); vm_compute; exact I.
Defined.

(** X8. Filtering is idempotent, and filtering with the empty exclusion
    list changes nothing. *)
Theorem filter_excluded_accounts_idempotent
    (tree : OrgTree) (excluded : list string) :
  NoDup (odict.keys tree) →
  filter_excluded_accounts (filter_excluded_accounts tree excluded) excluded
  = filter_excluded_accounts tree excluded
  ∧ filter_excluded_accounts tree [] = tree.
Proof.
  intros Hnd. split; [|by apply filter_excluded_accounts_nil].
  rewrite (filter_excluded_accounts_fmap (filter_excluded_accounts tree excluded))
    by (by rewrite filter_excluded_accounts_keys).
  rewrite !filter_excluded_accounts_fmap by done.
  rewrite <- list_fmap_compose. apply list_fmap_ext.
  intros i [ou accounts] _. simpl. f_equal.
  induction accounts as [|a accounts IH]; [done|]. simpl.
  destruct (kept ou excluded a) eqn:Hkept; simpl; [|done].
  by rewrite Hkept, IH.
Qed.

Lemma filter_excluded_accounts_idempotent_witness :
  filter_excluded_accounts
    (filter_excluded_accounts workloads_tree ["TestWorkload"]) ["TestWorkload"]
  = filter_excluded_accounts workloads_tree ["TestWorkload"]
  ∧ filter_excluded_accounts workloads_tree [] = workloads_tree.
Proof.
  apply (filter_excluded_accounts_idempotent workloads_tree ["TestWorkload"]).
  apply (bool_decide_unpack _); vm_compute; exact I.
Defined.

Lemma account_ids_from_ou_present_from
    (tree : OrgTree) (paths : list string) (accounts : odict.t string) :
  (∀ p, p ∈ paths → p ∈ odict.keys tree) →
  foldM
    (λ accounts ou,
       match odict.get ou tree with
       | None => Raise TypeError
       | Some account_list => Ok (foldl record_account accounts account_list)
       end)
    paths accounts
  = Ok (foldl record_account accounts (requested_accounts paths tree)).
Proof.
  revert accounts. induction paths as [|ou paths IH]; intros accounts Hall; [done|].
  simpl. destruct (odict.get ou tree) as [account_list|] eqn:Hou.
  - simpl. rewrite IH by (intros p Hp; apply Hall; by right).
    unfold requested_accounts. by rewrite foldl_app.
  - apply get_None_keys in Hou. destruct Hou. apply Hall. by left.
Qed.

(** X9. [account_ids_from_ou] returns a mapping exactly when every
    requested path is a key of the tree; the mapping then holds the names of
    the accounts of the requested OUs and no other name, each with the id
    of the last account of that name in the order of the request. *)
Theorem account_ids_from_ou_present
    (ou_target_accounts : list string) (tree : OrgTree) :
  ((∃ accounts, account_ids_from_ou ou_target_accounts tree = Ok accounts)
   ↔ ∀ p, p ∈ ou_target_accounts → p ∈ odict.keys tree)
  ∧ (∀ accounts,
       account_ids_from_ou ou_target_accounts tree = Ok accounts →
       (∀ n, n ∈ odict.keys accounts
             ↔ ∃ a, a ∈ requested_accounts ou_target_accounts tree ∧ Name a = n)
       ∧ (∀ n, odict.get n accounts
               = Id <$> last_named n
                          (requested_accounts ou_target_accounts tree))).
Proof.
  assert (Hmissing : (∃ p, p ∈ ou_target_accounts ∧ p ∉ odict.keys tree) →
            account_ids_from_ou ou_target_accounts tree = Raise TypeError).
  { intros (p & Hin & Hp). apply account_ids_from_ou_missing_from.
    exists p. by rewrite get_None_keys. }
  split.
  - split.
    + intros [accounts Hok] p Hp.
      destruct (decide (p ∈ odict.keys tree)) as [|Hout]; [done|].
      rewrite Hmissing in Hok by (by exists p). done.
    + intros Hall. eexists. by apply account_ids_from_ou_present_from.
  - intros accounts Hok.
    assert (Hall : ∀ p, p ∈ ou_target_accounts → p ∈ odict.keys tree).
    { intros p Hp. destruct (decide (p ∈ odict.keys tree)) as [|Hout]; [done|].
      rewrite Hmissing in Hok by (by exists p). done. }
    unfold account_ids_from_ou in Hok.
    rewrite account_ids_from_ou_present_from in Hok by done.
    injection Hok as <-. split.
    + intros n. rewrite keys_record_accounts. split; [|by right].
      intros [H|?]; [|done]. by apply elem_of_nil in H.
    + intros n. rewrite record_accounts_last.
      by destruct (last_named n _).
Qed.

Lemma flatten_filter_excluded
    (tree : OrgTree) (excluded : list string) (a : account) :
  NoDup (odict.keys tree) →
  a ∈ flatten (filter_excluded_accounts tree excluded) →
  (Name a ∉ excluded) ∧ a ∈ flatten tree.
Proof.
  intros Hnd. rewrite filter_excluded_accounts_fmap by done. clear Hnd.
  unfold flatten. induction tree as [|[ou accounts] tree IH]; simpl.
  - intros H. by apply elem_of_nil in H.
  - rewrite !elem_of_app. intros [Hin|Hin].
    + apply list_elem_of_In, filter_In in Hin as [Hin Hkept].
      apply list_elem_of_In in Hin. split; [|by left].
      unfold kept, py_in in Hkept. apply negb_true_iff, orb_false_iff in Hkept.
      destruct Hkept as [_ Hname]. by apply bool_decide_eq_false in Hname.
    + destruct (IH Hin) as [? ?]. split; [done|by right].
Qed.

Lemma get_filter_excluded
    (tree : OrgTree) (excluded : list string) (ou : string) (a : account) :
  NoDup (odict.keys tree) →
  a ∈ default [] (odict.get ou (filter_excluded_accounts tree excluded)) →
  Name a ∉ excluded.
Proof.
  intros Hnd. rewrite filter_excluded_accounts_fmap by done.
  rewrite (get_fmap (λ k v, List.filter (kept k excluded) v)).
  destruct (odict.get ou tree) as [accounts|]; simpl.
  - intros Hin. apply list_elem_of_In, filter_In in Hin as [_ Hkept].
    unfold kept, py_in in Hkept. apply negb_true_iff, orb_false_iff in Hkept.
    destruct Hkept as [_ Hname]. by apply bool_decide_eq_false in Hname.
  - intros H. by apply elem_of_nil in H.
Qed.

Lemma py_remove_subseteq (x y : string) (xs : list string) :
  x ∈ py_remove y xs → x ∈ xs.
Proof.
  induction xs as [|z xs IH]; simpl; [done|].
  destruct (decide (y = z)) as [->|Hne]; [by right|].
  rewrite !elem_of_cons. intros [->|Hin]; [by left|right; by apply IH].
Qed.

Lemma py_remove_other (x y : string) (xs : list string) :
  x ∈ xs → x ≠ y → x ∈ py_remove y xs.
Proof.
  induction xs as [|z xs IH]; simpl; [done|]. intros Hin Hne.
  apply elem_of_cons in Hin as [->|Hin].
  - rewrite decide_False by (by intros ->). by left.
  - destruct (decide (y = z)); [done|]. right. by apply IH.
Qed.

Lemma py_remove_sublist (y : string) (xs : list string) :
  py_remove y xs `sublist_of` xs.
Proof.
  induction xs as [|z xs IH]; simpl; [done|].
  destruct (decide (y = z)); [by apply sublist_cons|by apply sublist_skip].
Qed.

Lemma match_accounts_keys
    (l : list account) (found : odict.t string) (remaining : list string)
    (n : string) :
  n ∈ odict.keys (foldl match_account (found, remaining) l).1
  ↔ n ∈ odict.keys found ∨ (n ∈ remaining ∧ n ∈ Name <$> l).
Proof.
  revert found remaining. induction l as [|a l IH]; intros found remaining.
  - simpl. split; [by left|]. intros [?|[_ H]]; [done|]. by apply elem_of_nil in H.
  - change (foldl match_account (found, remaining) (a :: l))
      with (foldl match_account (match_account (found, remaining) a) l).
    unfold match_account at 2. unfold py_in.
    destruct (decide (Name a ∈ remaining)) as [Hin|Hout].
    + rewrite bool_decide_eq_true_2 by done. rewrite IH, keys_set.
      rewrite fmap_cons, elem_of_cons. split.
      * intros [[->|?]|[Hrem Hl]]; [right|by left|right].
        -- split; [done|by left].
        -- split; [by apply py_remove_subseteq in Hrem|by right].
      * intros [?|[Hrem [->|Hl]]]; [left; by right|left; by left|].
        destruct (decide (n = Name a)) as [->|Hne]; [left; by left|].
        right. split; [by apply py_remove_other|done].
    + rewrite bool_decide_eq_false_2 by done. rewrite IH.
      rewrite fmap_cons, elem_of_cons. split.
      * intros [?|[Hrem Hl]]; [by left|]. right. split; [done|by right].
      * intros [?|[Hrem [->|Hl]]]; [by left|done|]. right. by split.
Qed.

Lemma match_accounts_sound
    (l : list account) (found : odict.t string) (remaining : list string)
    (n i : string) :
  odict.get n (foldl match_account (found, remaining) l).1 = Some i →
  odict.get n found = Some i ∨ ∃ a, a ∈ l ∧ name_id a = (n, i).
Proof.
  revert found remaining. induction l as [|a l IH]; intros found remaining Hget.
  - by left.
  - change (foldl match_account (found, remaining) (a :: l))
      with (foldl match_account (match_account (found, remaining) a) l) in Hget.
    unfold match_account at 2 in Hget.
    destruct (py_in (Name a) remaining).
    + apply IH in Hget as [Hget|(b & Hb & Hpair)].
      * rewrite get_set in Hget.
        destruct (decide (n = Name a)) as [->|Hne]; [|by left].
        right. exists a. split; [by left|]. unfold name_id. congruence.
      * right. exists b. split; [by right|done].
    + apply IH in Hget as [Hget|(b & Hb & Hpair)]; [by left|].
      right. exists b. split; [by right|done].
Qed.

Lemma match_accounts_sublist
    (l : list account) (found : odict.t string) (remaining : list string) :
  (foldl match_account (found, remaining) l).2 `sublist_of` remaining.
Proof.
  revert found remaining. induction l as [|a l IH]; intros found remaining; [done|].
  change (foldl match_account (found, remaining) (a :: l))
    with (foldl match_account (match_account (found, remaining) a) l).
  unfold match_account at 2. destruct (py_in (Name a) remaining); [|apply IH].
  etrans; [apply IH|apply py_remove_sublist].
Qed.

(** X10. For any requested list, repetitions allowed,
    [account_ids_from_name] resolves a name exactly when it is requested
    and some account of the tree carries it; every id it returns is the id
    of an account with that name; and what it leaves of the caller's list
    is a sublist of the request. *)
Theorem account_ids_from_name_sound (names : list string) (tree : OrgTree) :
  NoDup (odict.keys tree) →
  (∀ n, n ∈ odict.keys (account_ids_from_name names tree).1
        ↔ n ∈ names ∧ ∃ a, a ∈ flatten tree ∧ Name a = n)
  ∧ (∀ n i, odict.get n (account_ids_from_name names tree).1 = Some i →
            ∃ a, a ∈ flatten tree ∧ name_id a = (n, i))
  ∧ (account_ids_from_name names tree).2 `sublist_of` names.
Proof.
  intros Hnd. rewrite account_ids_from_name_flatten by done.
  split; [|split].
  - intros n. rewrite match_accounts_keys, list_elem_of_fmap. split.
    + intros [H|[Hn (a & -> & Ha)]]; [by apply elem_of_nil in H|].
      split; [done|]. by exists a.
    + intros [Hn (a & Ha & <-)]. right. split; [done|]. by exists a.
  - intros n i Hget. by apply match_accounts_sound in Hget as [?|?].
  - apply match_accounts_sublist.
Qed.

Lemma account_ids_from_name_sound_witness :
  let names := ["Sandbox"; "Sandbox"; "Audit"] in
  (∀ n, n ∈ odict.keys (account_ids_from_name names twin_tree).1
        ↔ n ∈ names ∧ ∃ a, a ∈ flatten twin_tree ∧ Name a = n)
  ∧ (∀ n i, odict.get n (account_ids_from_name names twin_tree).1 = Some i →
            ∃ a, a ∈ flatten twin_tree ∧ name_id a = (n, i))
  ∧ (account_ids_from_name names twin_tree).2 `sublist_of` names.
Proof.
  apply (account_ids_from_name_sound ["Sandbox"; "Sandbox"; "Audit"] twin_tree).
  apply (bool_decide_unpack _); vm_compute; exact I.
Defined.

(** X11. On a tree that [filter_excluded_accounts] has filtered, neither
    resolver returns a name of the exclusion list. *)
Theorem excluded_accounts_never_resolved
    (tree : OrgTree) (excluded : list string) :
  NoDup (odict.keys tree) →
  (∀ paths accounts n,
     account_ids_from_ou paths (filter_excluded_accounts tree excluded)
     = Ok accounts →
     n ∈ excluded → odict.get n accounts = None)
  ∧ (∀ names n,
       n ∈ excluded →
       odict.get n
         (account_ids_from_name names
            (filter_excluded_accounts tree excluded)).1 = None).
Proof.
  intros Hnd. split.
  - intros paths accounts n Hok Hn. apply get_None_keys. intros Hkey.
    assert (Hall : ∀ p, p ∈ paths
              → p ∈ odict.keys (filter_excluded_accounts tree excluded)).
    { intros p Hp.
      destruct (decide (p ∈ odict.keys (filter_excluded_accounts tree excluded)))
        as [|Hout]; [done|].
      unfold account_ids_from_ou in Hok.
      rewrite account_ids_from_ou_missing_from in Hok; [done|].
      exists p. by rewrite get_None_keys. }
    unfold account_ids_from_ou in Hok.
    rewrite account_ids_from_ou_present_from in Hok by done.
    injection Hok as <-.
    apply keys_record_accounts in Hkey as [H|(a & Ha & <-)].
    { by apply elem_of_nil in H. }
    unfold requested_accounts in Ha.
    apply list_elem_of_bind in Ha as (ou & Ha & _).
    by apply (get_filter_excluded tree excluded ou a Hnd).
  - intros names n Hn. apply get_None_keys. intros Hkey.
    rewrite account_ids_from_name_flatten in Hkey
      by (by rewrite filter_excluded_accounts_keys).
    apply match_accounts_keys in Hkey as [H|[_ Hl]].
    { by apply elem_of_nil in H. }
    apply list_elem_of_fmap in Hl as (a & -> & Ha).
    by destruct (flatten_filter_excluded tree excluded a Hnd Ha).
Qed.

Lemma excluded_accounts_never_resolved_witness :
  (∀ paths accounts n,
     account_ids_from_ou paths (filter_excluded_accounts org_tree ["Audit"])
     = Ok accounts →
     n ∈ ["Audit"] → odict.get n accounts = None)
  ∧ (∀ names n,
       n ∈ ["Audit"] →
       odict.get n
         (account_ids_from_name names
            (filter_excluded_accounts org_tree ["Audit"])).1 = None).
Proof.
  apply (excluded_accounts_never_resolved org_tree ["Audit"]).
  apply (bool_decide_unpack _); vm_compute; exact I.
Defined.

(** ** Which values the formatter renders *)

Lemma value_nested_ind (P : value → Prop) :
  (∀ s, P (VStr s)) → (∀ b, P (VBool b)) → (∀ z, P (VInt z)) →
  (∀ vs, Forall P vs → P (VList vs)) →
  (∀ kvs, Forall (λ kv, P kv.2) kvs → P (VDict kvs)) →
  P VOther →
  ∀ v, P v.
Proof.
  intros Hs Hb Hz Hl Hd Ho. fix IH 1. intros [s|b|z|vs|kvs|].
  - apply Hs.
  - apply Hb.
  - apply Hz.
  - apply Hl. induction vs as [|v vs IHvs]; constructor; [apply IH|exact IHvs].
  - apply Hd. induction kvs as [|[k v] kvs IHkvs]; constructor;
      [apply IH|exact IHkvs].
  - apply Ho.
Qed.

Lemma mapM_all {A B} (f : A → result B) (ok : A → bool) (xs : list A) :
  Forall (λ x, if ok x then ∃ y, f x = Ok y else f x = Raise TypeError) xs →
  if forallb ok xs then ∃ ys, mapM f xs = Ok ys
  else mapM f xs = Raise TypeError.
Proof.
  induction 1 as [|x xs Hx _ IH]; [by eexists|].
  rewrite mapM_cons. simpl. destruct (ok x).
  - destruct Hx as [y ->]. simpl. destruct (forallb ok xs).
    + destruct IH as [ys ->]. by eexists.
    + by rewrite IH.
  - by rewrite Hx.
Qed.

Lemma format_text_list (vs : list value) (indent : nat) :
  forallb is_text vs = true →
  mapM (λ v, format_value v indent) vs = Ok (PStr <$> (scalar_text <$> vs)).
Proof.
  induction vs as [|v vs IH]; [done|].
  simpl forallb. intros [Hv Hvs]%andb_prop.
  rewrite mapM_cons, IH by done.
  destruct v as [s|b| | | |]; try done.
  - simpl. by destruct (startswith s "module.").
  - by destruct b.
Qed.

Lemma flat_list_cases (vs : list value) :
  forallb (λ v, negb (is_container v)) vs = true →
  forallb is_text vs = true
  ∨ (∃ z, VInt z ∈ vs)
  ∨ (VOther ∈ vs ∧ forallb renderable vs = false).
Proof.
  induction vs as [|v vs IH]; [by left|].
  simpl. intros [Hv Hvs]%andb_prop.
  destruct v as [s|b|z| | |]; try done.
  - destruct (IH Hvs) as [->|[[z Hz]|[Ho ->]]]; [by left|right; left|right; right].
    + exists z. by right.
    + split; [by right|done].
  - destruct (IH Hvs) as [->|[[z Hz]|[Ho ->]]]; [by left|right; left|right; right].
    + exists z. by right.
    + split; [by right|done].
  - right. left. exists z. by left.
  - right. right. split; [by left|done].
Qed.

Lemma text_list_renderable (vs : list value) :
  forallb is_text vs = true →
  forallb renderable vs = true ∧ forallb (λ v, negb (is_int v)) vs = true.
Proof.
  induction vs as [|v vs IH]; [done|].
  simpl. intros [Hv Hvs]%andb_prop. destruct (IH Hvs) as [-> ->].
  by destruct v.
Qed.

Lemma int_list_not_renderable (vs : list value) (z : Z) :
  VInt z ∈ vs → forallb (λ v, negb (is_int v)) vs = false.
Proof.
  induction vs as [|v vs IH]; intros Hin; [by apply elem_of_nil in Hin|].
  simpl. apply elem_of_cons in Hin as [<-|Hin]; [done|].
  rewrite IH by done. apply andb_false_r.
Qed.

Lemma format_flat_list (vs : list value) (indent : nat) :
  forallb (λ v, negb (is_container v)) vs = true →
  format_value (VList vs) indent
  = if forallb is_text vs
    then Ok (PStr ("[" +:+ String.concat ", " (scalar_text <$> vs) +:+ "]"))
    else Raise TypeError.
Proof.
  intros Hflat. destruct (flat_list_cases vs Hflat) as [Htext|[[z Hz]|[Ho Hr]]].
  - rewrite Htext, format_value_flat_list by done.
    rewrite format_text_list by done. unfold rbind at 1. by rewrite join_strs.
  - assert (Hnot : forallb is_text vs = false).
    { clear Hflat. induction vs as [|v vs IH]; [by apply elem_of_nil in Hz|].
      simpl. apply elem_of_cons in Hz as [<-|Hz]; [done|].
      rewrite IH by done. apply andb_false_r. }
    rewrite Hnot, format_value_flat_list by done.
    destruct (format_scalars_int z (S indent) vs Hflat Hz)
      as [->|(parts & -> & Hparts)]; [done|].
    simpl. by rewrite (join_int _ z).
  - assert (Hnot : forallb is_text vs = false).
    { clear Hflat Hr. induction vs as [|v vs IH]; [by apply elem_of_nil in Ho|].
      simpl. apply elem_of_cons in Ho as [<-|Ho]; [done|].
      rewrite IH by done. apply andb_false_r. }
    rewrite Hnot, format_value_flat_list by done.
    assert (Hraise : mapM (λ v, format_value v (S indent)) vs = Raise TypeError).
    { clear Hnot Hr. induction vs as [|v vs IH]; [by apply elem_of_nil in Ho|].
      simpl in Hflat. apply andb_prop in Hflat as [Hv Hflat].
      rewrite mapM_cons. apply elem_of_cons in Ho as [<-|Ho]; [done|].
      rewrite IH by done.
      destruct (format_scalar v (S indent) Hv)
        as [->|[(s & -> & _)|(z & _ & ->)]]; done. }
    by rewrite Hraise.
Qed.

Lemma format_value_nested_list (vs : list value) (indent : nat) :
  forallb (λ v, negb (is_container v)) vs = false →
  format_value (VList vs) indent
  = let* lines :=
      mapM (λ v, let* f := format_value v (S indent) in
                 Ok (str_mul "  " (S indent) +:+ "  " +:+ str f)) vs in
    Ok (PStr ("[" +:+ nl +:+ String.concat ("," +:+ nl) lines +:+ nl
              +:+ str_mul "  " (S indent) +:+ "]")).
Proof. intros Hflat. simpl. by rewrite Hflat. Qed.

Lemma format_value_mapping (kvs : list (string * value)) (indent : nat) :
  format_value (VDict kvs) indent
  = let* lines :=
      mapM (λ kv : string * value,
              let* f := format_value kv.2 (S indent) in
              Ok (str_mul "  " (S indent) +:+ "  " +:+ kv.1 +:+ " = " +:+ str f))
        kvs in
    Ok (PStr ("{" +:+ nl +:+ String.concat nl lines +:+ nl
              +:+ str_mul "  " (S indent) +:+ "}")).
Proof. reflexivity. Qed.

Lemma format_value_renders (v : value) :
  ∀ indent,
    if renderable v then ∃ o, format_value v indent = Ok o
    else format_value v indent = Raise TypeError.
Proof.
  induction v as [s|b|z|vs IH|kvs IH|] using value_nested_ind; intros indent.
  - simpl. destruct (startswith s "module."); by eexists.
  - by eexists.
  - by eexists.
  - cbn [renderable].
    destruct (forallb (λ v, negb (is_container v)) vs) eqn:Hflat.
    + rewrite format_flat_list by done.
      destruct (flat_list_cases vs Hflat) as [Htext|[[z Hz]|[Ho Hr]]].
      * destruct (text_list_renderable vs Htext) as [-> ->].
        rewrite Htext. by eexists.
      * rewrite (int_list_not_renderable vs z Hz), andb_false_r.
        destruct (forallb is_text vs) eqn:Htext; [|done].
        destruct (text_list_renderable vs Htext) as [_ Hint].
        by rewrite (int_list_not_renderable vs z Hz) in Hint.
      * rewrite Hr. simpl.
        destruct (forallb is_text vs) eqn:Htext; [|done].
        destruct (text_list_renderable vs Htext) as [Hren _]. congruence.
    + rewrite andb_true_r.
      assert (Hrun :
        if forallb renderable vs
        then ∃ lines,
          mapM (λ v, let* f := format_value v (S indent) in
                     Ok (str_mul "  " (S indent) +:+ "  " +:+ str f)) vs
          = Ok lines
        else mapM (λ v, let* f := format_value v (S indent) in
                        Ok (str_mul "  " (S indent) +:+ "  " +:+ str f)) vs
             = Raise TypeError).
      { apply mapM_all. eapply Forall_impl; [exact IH|].
        intros v Hv. specialize (Hv (S indent)). simpl in Hv.
        destruct (renderable v); [|by rewrite Hv].
        destruct Hv as [o ->]. by eexists. }
      rewrite format_value_nested_list by done.
      destruct (forallb renderable vs).
      * destruct Hrun as [lines ->]. by eexists.
      * by rewrite Hrun.
  - cbn [renderable].
    assert (Hrun :
      if forallb (λ kv, renderable kv.2) kvs
      then ∃ lines,
        mapM (λ kv : string * value,
                let* f := format_value kv.2 (S indent) in
                Ok (str_mul "  " (S indent) +:+ "  " +:+ kv.1 +:+ " = " +:+ str f))
          kvs
        = Ok lines
      else mapM (λ kv : string * value,
                   let* f := format_value kv.2 (S indent) in
                   Ok (str_mul "  " (S indent) +:+ "  " +:+ kv.1 +:+ " = "
                         +:+ str f)) kvs
           = Raise TypeError).
    { apply (mapM_all _ (λ kv, renderable kv.2)).
      eapply Forall_impl; [exact IH|].
      intros kv Hkv. specialize (Hkv (S indent)). simpl in Hkv.
      destruct (renderable kv.2); [|by rewrite Hkv].
      destruct Hkv as [o ->]. by eexists. }
    rewrite format_value_mapping.
    destruct (forallb (λ kv, renderable kv.2) kvs).
    + destruct Hrun as [lines ->]. by eexists.
    + by rewrite Hrun.
  - done.
Qed.

(** X12. [format_value] returns a result exactly for the values that hold
    no object of another type and no integer directly inside a list of
    scalars, at every depth; for every other value it raises [TypeError],
    whatever the indentation. *)
Theorem format_value_renderable (v : value) (indent : nat) :
  ((∃ o, format_value v indent = Ok o) ↔ renderable v = true)
  ∧ (format_value v indent = Raise TypeError ↔ renderable v = false).
Proof.
  pose proof (format_value_renders v indent) as H.
  destruct (renderable v).
  - destruct H as [o Ho]. rewrite Ho. split; split; try done. by exists o.
  - rewrite H. split; split; try done. by intros [o ?].
Qed.

(** X13. A list that holds neither list nor mapping is rendered on one line,
    its items separated by a comma and a space, exactly when every item is a
    string or a boolean; the empty list gives a pair of brackets. *)
Theorem format_value_one_line (vs : list value) (indent : nat) :
  forallb (λ v, negb (is_container v)) vs = true →
  format_value (VList vs) indent
  = (if forallb is_text vs
     then Ok (PStr ("[" +:+ String.concat ", " (scalar_text <$> vs) +:+ "]"))
     else Raise TypeError)
  ∧ format_value (VList []) indent = Ok (PStr "[]").
Proof.
  intros Hflat. split; [by apply format_flat_list|done].
Qed.

Lemma format_value_one_line_witness :
  format_value (VList [VStr "eu-west-2"; VBool true; VStr "module.vpc.id"]) 0
  = (if forallb is_text [VStr "eu-west-2"; VBool true; VStr "module.vpc.id"]
     then Ok (PStr ("[" +:+ String.concat ", "
                              (scalar_text <$> [VStr "eu-west-2"; VBool true;
                                                VStr "module.vpc.id"])
                    +:+ "]"))
     else Raise TypeError)
  ∧ format_value (VList []) 0 = Ok (PStr "[]").
Proof.
  apply (format_value_one_line
           [VStr "eu-west-2"; VBool true; VStr "module.vpc.id"] 0).
  reflexivity.
Defined.

(** ** The shared tree and the files over a run *)

Lemma mem_false_get {V} (k : string) (d : odict.t V) :
  odict.mem k d = false → odict.get k d = None.
Proof.
  unfold odict.mem. intros H%bool_decide_eq_false. by apply get_None_keys.
Qed.

Lemma create_module_code_written
    (module_name module_source : string) (ids : odict.t string)
    (regions : list string) (variables : list variable)
    (dependencies : list string) (w w' : world) (r : result string) :
  create_module_code module_name module_source ids regions variables
    dependencies w = (r, w') →
  match r with
  | Ok text =>
      w' = write_to_file text ("terraform/" +:+ module_name +:+ ".tf") w
  | Raise _ => w' = w
  end.
Proof.
  unfold create_module_code. destruct (foldM _ _ _); by intros [= <- <-].
Qed.

Section run_properties.

Variable set_add : string → list string → list string.

Lemma exclude_step_shared
    (shared copy : loc) (target : odict.t (list string)) (w : world) :
  shared < length (heap w) →
  shared < length (heap (exclude_step shared copy target w).2)
  ∧ deref (exclude_step shared copy target w).2 shared
    = match default [] (odict.get "excludedAccounts" target) with
      | [] => deref w shared
      | _ :: _ =>
          filter_excluded_accounts (deref w shared)
            (default [] (odict.get "excludedAccounts" target))
      end.
Proof.
  intros Hshared. unfold exclude_step.
  destruct (odict.mem "excludedAccounts" target) eqn:Hmem.
  - destruct (default [] (odict.get "excludedAccounts" target))
      as [|entry excluded]; [done|].
    unfold deref. simpl. rewrite length_insert. split; [done|].
    by rewrite list_lookup_insert_eq by done.
  - by rewrite (mem_false_get _ _ Hmem).
Qed.

Lemma module_pass_shared
    (shared : loc) (ids : odict.t string) (all_modules : list string)
    (m : tf_module) (w : world) :
  shared < length (heap w) →
  shared < length (heap (module_pass set_add shared ids all_modules m w).2)
  ∧ deref (module_pass set_add shared ids all_modules m w).2 shared
    = match exclusions m with
      | [] => deref w shared
      | _ :: _ => filter_excluded_accounts (deref w shared) (exclusions m)
      end.
Proof.
  intros Hshared. unfold exclusions.
  unfold module_pass, deepcopy.
  set (w1 := set_heap _ (add_regions set_add (regions m) w)).
  assert (Hw1 : shared < length (heap w1) ∧ deref w1 shared = deref w shared).
  { unfold w1, deref. simpl. rewrite length_app. split; [lia|].
    by rewrite lookup_app_l by done. }
  destruct Hw1 as [Hlen1 Htree1].
  destruct (exclude_step_shared shared
              (length (heap (add_regions set_add (regions m) w)))
              (deploymentTargets m) w1 Hlen1) as [Hlen Htree].
  rewrite Htree1 in Htree.
  destruct (exclude_step shared _ (deploymentTargets m) w1) as [copy wp].
  simpl in Hlen, Htree.
  destruct (foldM _ _ _) as [resolved|e]; [|done].
  destruct (validate_dependencies _ _ _) as [[]|e]; [|done].
  rewrite create_provider_code_blocks.
  pose proof (create_module_code_heap (name m) (source m) resolved (regions m)
                (variables m) (dependsOn m)
                (write_to_file (provider_blocks (ALL_REGIONS wp) ids)
                   "terraform/provider.tf" wp)) as Hheap.
  destruct (create_module_code _ _ _ _ _ _ _) as [[text|e] wq];
    simpl in *; unfold deref in *; by rewrite Hheap.
Qed.

Lemma module_loop_shared
    (shared : loc) (ids : odict.t string) (all_modules : list string)
    (tf_modules : list tf_module) (w w' : world) :
  shared < length (heap w) → NoDup (odict.keys (deref w shared)) →
  module_loop set_add shared ids all_modules tf_modules w = (Next, w') →
  deref w' shared
  = filter_excluded_accounts (deref w shared) (tf_modules ≫= exclusions).
Proof.
  revert w. induction tf_modules as [|m tf_modules IH]; intros w Hshared Hnd Hloop.
  - injection Hloop as <-. by rewrite filter_excluded_accounts_nil.
  - simpl in Hloop.
    destruct (module_pass_shared shared ids all_modules m w Hshared)
      as [Hlen Htree].
    destruct (module_pass set_add shared ids all_modules m w) as [[| |] w1];
      try done.
    simpl in Hlen, Htree.
    assert (Hfiltered : deref w1 shared
              = filter_excluded_accounts (deref w shared) (exclusions m)).
    { rewrite Htree. destruct (exclusions m); [|done].
      by rewrite filter_excluded_accounts_nil. }
    rewrite (IH w1 Hlen) by
      (try done; by rewrite Hfiltered, filter_excluded_accounts_keys).
    rewrite Hfiltered, filter_excluded_accounts_app by done.
    by rewrite bind_cons.
Qed.

Lemma module_loop_untouched
    (shared : loc) (ids : odict.t string) (all_modules : list string)
    (tf_modules : list tf_module) (w : world) :
  shared < length (heap w) →
  Forall (λ m, exclusions m = []) tf_modules →
  deref (module_loop set_add shared ids all_modules tf_modules w).2 shared
  = deref w shared.
Proof.
  intros Hshared Hnone. revert w Hshared.
  induction Hnone as [|m tf_modules Hm _ IH]; intros w Hshared; [done|].
  simpl.
  destruct (module_pass_shared shared ids all_modules m w Hshared)
    as [Hlen Htree].
  rewrite Hm in Htree.
  destruct (module_pass set_add shared ids all_modules m w) as [[| |] w1];
    simpl in *; [|done..].
  by rewrite IH.
Qed.

Lemma deref_fresh (built : OrgTree) (w : world) :
  deref (set_heap (heap w ++ [built]) w) (length (heap w)) = built.
Proof. unfold deref. simpl. by rewrite list_lookup_middle. Qed.

(** X14. When a run completes, the shared tree holds what filtering the
    built tree with the exclusion lists of all modules, one after the other,
    gives: the exclusions of every pass add up in the one object. *)
Theorem deploy_targets_exclusions_accumulate
    (built : OrgTree) (tf_modules : list tf_module) (w w' : world) :
  NoDup (odict.keys built) →
  deploy_targets set_add built tf_modules w = (Next, w') →
  deref w' (length (heap w))
  = filter_excluded_accounts built (tf_modules ≫= exclusions).
Proof.
  intros Hnd Hrun. unfold deploy_targets in Hrun.
  apply module_loop_shared in Hrun.
  - by rewrite deref_fresh in Hrun.
  - simpl. rewrite length_app. simpl. lia.
  - by rewrite deref_fresh.
Qed.

(** X15. When no module of the run declares a non-empty [excludedAccounts]
    list, the shared tree is the built tree after the run, however the run
    ends. *)
Theorem deploy_targets_without_exclusions
    (built : OrgTree) (tf_modules : list tf_module) (w : world) :
  Forall (λ m, exclusions m = []) tf_modules →
  deref (deploy_targets set_add built tf_modules w).2 (length (heap w)) = built.
Proof.
  intros Hnone. unfold deploy_targets.
  rewrite module_loop_untouched; [apply deref_fresh| |done].
  simpl. rewrite length_app. simpl. lia.
Qed.

Lemma module_pass_files
    (shared : loc) (ids : odict.t string) (all_modules : list string)
    (m : tf_module) (w w' : world) :
  module_pass set_add shared ids all_modules m w = (Next, w') →
  (files w').*1 = (files w).*1 ++ pass_files m.
Proof.
  intros Hpass.
  destruct (module_pass_outcome set_add shared ids all_modules m w)
    as (wp & Hfiles & _ & [[e He]|[_ (resolved & Hrun)]]).
  - by rewrite He in Hpass.
  - cbv zeta in Hrun. rewrite Hrun in Hpass.
    destruct (create_module_code _ _ _ _ _ _ _) as [[text|e] wq] eqn:Hcode;
      [|done].
    apply create_module_code_written in Hcode. injection Hpass as <-.
    subst wq. simpl. rewrite Hfiles, !fmap_app, <- app_assoc. done.
Qed.

(** X16. A run that completes has called the file sink twice per module, in
    module order: for the provider file, then for the file of the module;
    nothing else is written and earlier writes stay. *)
Theorem deploy_targets_files
    (built : OrgTree) (tf_modules : list tf_module) (w w' : world) :
  deploy_targets set_add built tf_modules w = (Next, w') →
  (files w').*1 = (files w).*1 ++ (tf_modules ≫= pass_files).
Proof.
  unfold deploy_targets.
  generalize (all_account_ids
                (deref (set_heap (heap w ++ [built]) w) (length (heap w)))).
  generalize (name <$> tf_modules) (length (heap w)).
  change (files w) with (files (set_heap (heap w ++ [built]) w)).
  generalize (set_heap (heap w ++ [built]) w). clear w.
  intros w all_modules shared ids. revert w.
  induction tf_modules as [|m tf_modules IH]; intros w Hloop.
  - injection Hloop as <-. by rewrite app_nil_r.
  - simpl in Hloop.
    destruct (module_pass set_add shared ids all_modules m w) as [[| |] w1] eqn:Hpass;
      try done.
    rewrite (IH _ Hloop), (module_pass_files _ _ _ _ _ _ Hpass).
    by rewrite bind_cons, app_assoc.
Qed.

End run_properties.

Lemma deploy_targets_exclusions_accumulate_witness :
  deref (deploy_targets set_add_ordered org_tree [baseline; logging] fresh).2
    (length (heap fresh))
  = filter_excluded_accounts org_tree ([baseline; logging] ≫= exclusions).
Proof.
  apply (deploy_targets_exclusions_accumulate set_add_ordered org_tree
           [baseline; logging] fresh).
  - apply (bool_decide_unpack _); vm_compute; exact I.
  - vm_compute. reflexivity.
Defined.

Lemma deploy_targets_without_exclusions_witness :
  deref (deploy_targets set_add_ordered org_tree [logging; orphan] fresh).2
    (length (heap fresh))
  = org_tree.
Proof.
  apply (deploy_targets_without_exclusions set_add_ordered org_tree
           [logging; orphan] fresh).
  repeat constructor.
Defined.

Lemma deploy_targets_files_witness :
  (files (deploy_targets set_add_ordered org_tree [baseline; logging] fresh).2).*1
  = (files fresh).*1 ++ ([baseline; logging] ≫= pass_files).
Proof.
  apply (deploy_targets_files set_add_ordered org_tree [baseline; logging] fresh).
  vm_compute. reflexivity.
Defined.

(** ** Passes that resolve nothing, and passes that fail to resolve *)

Lemma validate_dependencies_known
    (module_name : string) (dependencies all_modules : list string) :
  (∀ d, d ∈ dependencies → d ∈ all_modules) →
  validate_dependencies module_name dependencies all_modules = Ok tt.
Proof.
  unfold validate_dependencies.
  induction dependencies as [|d dependencies IH]; intros Hall; [done|].
  simpl. unfold py_in. rewrite bool_decide_eq_true_2 by (apply Hall; by left).
  simpl. apply IH. intros d' Hd'. apply Hall. by right.
Qed.

Lemma no_key_empty {V} (d : odict.t V) :
  (∀ k, k ∉ odict.keys d) → d = [].
Proof.
  destruct d as [|[k v] d]; [done|]. intros H. destruct (H k). by left.
Qed.

Lemma account_ids_from_name_unmatched (names : list string) (tree : OrgTree) :
  NoDup (odict.keys tree) →
  (∀ a, a ∈ flatten tree → Name a ∉ names) →
  (account_ids_from_name names tree).1 = [].
Proof.
  intros Hnd Hnone. apply no_key_empty. intros n Hkey.
  rewrite account_ids_from_name_flatten in Hkey by done.
  apply match_accounts_keys in Hkey as [H|[Hn Hl]].
  - by apply elem_of_nil in H.
  - apply list_elem_of_fmap in Hl as (a & -> & Ha). by apply (Hnone a).
Qed.

Lemma account_ids_from_ou_raises
    (tree : OrgTree) (paths : list string) (accounts : odict.t string) (e : exn) :
  foldM
    (λ accounts ou,
       match odict.get ou tree with
       | None => Raise TypeError
       | Some account_list => Ok (foldl record_account accounts account_list)
       end)
    paths accounts = Raise e →
  e = TypeError.
Proof.
  revert accounts. induction paths as [|ou paths IH]; intros accounts; [done|].
  simpl. destruct (odict.get ou tree); simpl; [apply IH|congruence].
Qed.

Lemma foldM_raises {A B} (f : A → B → result A) (xs : list B) (x : B) (a : A) :
  x ∈ xs →
  (∀ a, f a x = Raise TypeError) →
  (∀ a y e, f a y = Raise e → e = TypeError) →
  foldM f xs a = Raise TypeError.
Proof.
  intros Hin Hx Honly. revert a.
  induction xs as [|y xs IH]; intros a; [by apply elem_of_nil in Hin|].
  simpl. destruct (f a y) as [a'|e] eqn:Hy.
  - simpl. apply elem_of_cons in Hin as [<-|Hin]; [|by apply IH].
    rewrite Hx in Hy. done.
  - simpl. f_equal. by apply (Honly a y).
Qed.

Section pass_properties.

Variable set_add : string → list string → list string.

(** The tree a pass resolves its targets against. *)
Lemma exclude_step_view
    (shared : loc) (target : odict.t (list string)) (w : world) :
  shared < length (heap w) →
  let step :=
    exclude_step shared (length (heap w)) target
      (set_heap (heap w ++ [deref w shared]) w) in
  files step.2 = files w
  ∧ ALL_REGIONS step.2 = ALL_REGIONS w
  ∧ deref step.2 step.1
    = match default [] (odict.get "excludedAccounts" target) with
      | [] => deref w shared
      | _ :: _ =>
          filter_excluded_accounts (deref w shared)
            (default [] (odict.get "excludedAccounts" target))
      end.
Proof.
  intros Hshared. cbv zeta. unfold exclude_step.
  assert (Hcopy : deref (set_heap (heap w ++ [deref w shared]) w) (length (heap w))
                  = deref w shared).
  { unfold deref at 1. simpl. by rewrite list_lookup_middle. }
  assert (Hsame : deref (set_heap (heap w ++ [deref w shared]) w) shared
                  = deref w shared).
  { unfold deref at 1. simpl. by rewrite lookup_app_l by done. }
  destruct (odict.mem "excludedAccounts" target) eqn:Hmem.
  - destruct (default [] (odict.get "excludedAccounts" target))
      as [|entry excluded]; [done|].
    split; [done|]. split; [done|].
    unfold filter_excluded_accounts_ref. rewrite Hsame.
    unfold deref at 1. simpl.
    by rewrite list_lookup_insert_eq by (rewrite length_app; simpl; lia).
  - by rewrite (mem_false_get _ _ Hmem).
Qed.

(** X17. A module that selects accounts by name only, none of which any
    account of the tree carries, is no error: its pass writes the provider
    file and an empty module file and goes on to the next module. *)
Theorem unmatched_names_write_empty_module
    (shared : loc) (ids : odict.t string) (all_modules names : list string)
    (m : tf_module) (w : world) :
  deploymentTargets m = [("accounts", names)] →
  shared < length (heap w) →
  NoDup (odict.keys (deref w shared)) →
  (∀ a, a ∈ flatten (deref w shared) → Name a ∉ names) →
  (∀ d, d ∈ dependsOn m → d ∈ all_modules) →
  ∃ wp,
    files wp = files w
    ∧ module_pass set_add shared ids all_modules m w
      = (Next,
         write_to_file "" ("terraform/" +:+ name m +:+ ".tf")
           (write_to_file (provider_blocks (ALL_REGIONS wp) ids)
              "terraform/provider.tf" wp)).
Proof.
  intros Htarget Hshared Hnd Hnone Hdeps.
  unfold module_pass, deepcopy. rewrite Htarget.
  set (w0 := add_regions set_add (regions m) w).
  destruct (exclude_step_view shared [("accounts", names)] w0 Hshared)
    as (Hfiles & _ & Hview).
  cbv zeta in Hfiles, Hview. simpl default in Hview.
  destruct (exclude_step shared (length (heap w0)) [("accounts", names)]
              (set_heap (heap w0 ++ [deref w0 shared]) w0)) as [copy wp].
  simpl in Hfiles, Hview. exists wp. split; [done|].
  assert (Hresolve :
    foldM (resolve_target [("accounts", names)] (deref wp copy))
      (odict.keys [("accounts", names)]) odict.empty = Ok []).
  { rewrite Hview. simpl. unfold resolve_target.
    rewrite decide_False by done. rewrite decide_True by done. simpl.
    destruct names as [|n names]; [done|].
    by rewrite account_ids_from_name_unmatched. }
  rewrite Hresolve, validate_dependencies_known by done.
  rewrite create_provider_code_blocks. unfold create_module_code, odict.items.
  by rewrite module_regions_no_accounts.
Qed.

(** X18. A module whose [organizationalUnits] list names a path that is no
    key of the tree makes its pass leave [deploy_targets] through the logged
    [TypeError], with no call of the file sink. *)
Theorem missing_ou_writes_nothing
    (shared : loc) (ids : odict.t string) (all_modules paths : list string)
    (p : string) (m : tf_module) (w : world) :
  odict.get "organizationalUnits" (deploymentTargets m) = Some paths →
  p ∈ paths → p ∉ odict.keys (deref w shared) →
  shared < length (heap w) → NoDup (odict.keys (deref w shared)) →
  ∃ w',
    module_pass set_add shared ids all_modules m w = (Return TypeError, w')
    ∧ files w' = files w.
Proof.
  intros Hget Hp Hmissing Hshared Hnd.
  unfold module_pass, deepcopy.
  set (w0 := add_regions set_add (regions m) w).
  destruct (exclude_step_view shared (deploymentTargets m) w0 Hshared)
    as (Hfiles & _ & Hview).
  cbv zeta in Hfiles, Hview.
  destruct (exclude_step shared (length (heap w0)) (deploymentTargets m)
              (set_heap (heap w0 ++ [deref w0 shared]) w0)) as [copy wp].
  simpl in Hfiles, Hview.
  assert (Hkeys : p ∉ odict.keys (deref wp copy)).
  { rewrite Hview.
    destruct (default [] (odict.get "excludedAccounts" (deploymentTargets m)));
      [done|].
    by rewrite filter_excluded_accounts_keys. }
  assert (Hresolve :
    foldM (resolve_target (deploymentTargets m) (deref wp copy))
      (odict.keys (deploymentTargets m)) odict.empty = Raise TypeError).
  { apply (foldM_raises _ _ "organizationalUnits").
    - destruct (decide ("organizationalUnits" ∈ odict.keys (deploymentTargets m)))
        as [|Hout]; [done|].
      apply get_None_keys in Hout. congruence.
    - intros accounts. unfold resolve_target. rewrite decide_True by done.
      rewrite Hget. simpl.
      destruct paths as [|p0 paths]; [by apply elem_of_nil in Hp|].
      unfold account_ids_from_ou.
      rewrite account_ids_from_ou_missing_from; [done|].
      exists p. by rewrite get_None_keys.
    - intros accounts target e. unfold resolve_target. cbv zeta.
      destruct (decide (target = "organizationalUnits")).
      + destruct (default [] (odict.get "organizationalUnits" _)); [done|].
        unfold account_ids_from_ou.
        destruct (foldM _ _ _) as [found|e'] eqn:Hrun; [done|].
        simpl. intros [= <-]. by apply account_ids_from_ou_raises in Hrun.
      + destruct (decide (target = "accounts")); [|done].
        by destruct (default [] (odict.get "accounts" _)). }
  rewrite Hresolve. by exists wp.
Qed.

End pass_properties.

Lemma unmatched_names_write_empty_module_witness :
  ∃ wp,
    files wp = files (World [org_tree] [] [])
    ∧ module_pass set_add_ordered 0 (all_account_ids org_tree) ["typo"]
        (TfModule "typo" "git::typo" ["eu-west-2"] [] []
           [("accounts", ["Audti"])])
        (World [org_tree] [] [])
      = (Next,
         write_to_file ""
           ("terraform/"
            +:+ name (TfModule "typo" "git::typo" ["eu-west-2"] [] []
                        [("accounts", ["Audti"])])
            +:+ ".tf")
           (write_to_file
              (provider_blocks (ALL_REGIONS wp) (all_account_ids org_tree))
              "terraform/provider.tf" wp)).
Proof.
  apply (unmatched_names_write_empty_module set_add_ordered 0
           (all_account_ids org_tree) ["typo"] ["Audti"]
           (TfModule "typo" "git::typo" ["eu-west-2"] [] []
              [("accounts", ["Audti"])])
           (World [org_tree] [] [])).
  - reflexivity.
  - simpl. lia.
  - apply (bool_decide_unpack _); vm_compute; exact I.
  - apply Forall_forall. apply (bool_decide_unpack _); vm_compute; exact I.
  - intros d Hd. by apply elem_of_nil in Hd.
Defined.

Lemma missing_ou_writes_nothing_witness :
  ∃ w',
    module_pass set_add_ordered 0 (all_account_ids org_tree) ["network"]
      (TfModule "network" "git::network" ["eu-west-2"] [] []
         [("organizationalUnits", ["Security"; "Workloads/Dev"])])
      (World [org_tree] [] [])
    = (Return TypeError, w')
    ∧ files w' = files (World [org_tree] [] []).
Proof.
  apply (missing_ou_writes_nothing set_add_ordered 0 (all_account_ids org_tree)
           ["network"] ["Security"; "Workloads/Dev"] "Workloads/Dev"
           (TfModule "network" "git::network" ["eu-west-2"] [] []
              [("organizationalUnits", ["Security"; "Workloads/Dev"])])
           (World [org_tree] [] [])).
  - reflexivity.
  - apply (bool_decide_unpack _); vm_compute; exact I.
  - apply (bool_decide_unpack _); vm_compute; exact I.
  - simpl. lia.
  - apply (bool_decide_unpack _); vm_compute; exact I.
Defined.

(** ** The generators on the management account and on empty input *)

Lemma provider_blocks_no_accounts (regions : list string) :
  provider_blocks regions [] = "".
Proof.
  unfold provider_blocks, odict.items.
  induction regions as [|region regions IH]; [done|].
  rewrite bind_cons. exact IH.
Qed.

(** X19. The provider generator recognises the management account by the
    exact name Management, the module generator by the lower-cased name.
    For an account whose name differs from Management in case only, the
    provider file therefore holds an assume-role provider aliased
    region-management, while the module block carries no providers
    reference to it. *)
Theorem management_name_case_mismatch
    (region account_name account_id module_name module_source lines : string)
    (variables : list variable) (dependencies : list string) (w : world) :
  lower account_name = "management" → account_name ≠ "Management" →
  variable_lines variables = Ok lines →
  (create_provider_code [region] [(account_name, account_id)] w).1
  = strcat [ "provider "; dq; "aws"; dq; " {"; nl;
             "  assume_role {"; nl;
             "    role_arn = "; dq; "arn:aws:iam::"; account_id;
               ":role/OrganizationAccountAccessRole"; dq; nl;
             "  }"; nl;
             "  alias  = "; dq; region; "-management"; dq; nl;
             "  region = "; dq; region; dq; nl;
             "}"; nl; nl ]
  ∧ (create_module_code module_name module_source [(account_name, account_id)]
       [region] variables dependencies w).1
    = Ok (strcat [ "module "; dq; module_name; "-"; region; "-management"; dq;
                     " {"; nl;
                   "  source = "; dq; module_source; dq; nl;
                   lines;
                   depends_on_line dependencies region;
                   "}"; nl; nl ]).
Proof.
  intros Hlower Hexact Hlines. split.
  - rewrite create_provider_code_blocks. simpl.
    unfold provider_blocks, odict.items. simpl.
    unfold provider_block. rewrite decide_False by done. rewrite Hlower.
    unfold strcat. simpl. rewrite ?str_app_assoc, ?str_app_nil_r. done.
  - unfold create_module_code, odict.items.
    rewrite (module_regions_ok _ _ _ _ lines) by done. simpl.
    f_equal. unfold module_block, providers_reference.
    rewrite decide_True by done. rewrite Hlower.
    unfold strcat. simpl.
    rewrite ?str_app_assoc, ?str_app_nil_r, ?str_app_nil_l. done.
Qed.

Lemma management_name_case_mismatch_witness :
  (create_provider_code ["eu-west-2"] [("MANAGEMENT", "111111111111")] fresh).1
  = strcat [ "provider "; dq; "aws"; dq; " {"; nl;
             "  assume_role {"; nl;
             "    role_arn = "; dq; "arn:aws:iam::"; "111111111111";
               ":role/OrganizationAccountAccessRole"; dq; nl;
             "  }"; nl;
             "  alias  = "; dq; "eu-west-2"; "-management"; dq; nl;
             "  region = "; dq; "eu-west-2"; dq; nl;
             "}"; nl; nl ]
  ∧ (create_module_code "baseline" "git::baseline"
       [("MANAGEMENT", "111111111111")] ["eu-west-2"] [] [] fresh).1
    = Ok (strcat [ "module "; dq; "baseline"; "-"; "eu-west-2"; "-management"; dq;
                     " {"; nl;
                   "  source = "; dq; "git::baseline"; dq; nl;
                   "";
                   depends_on_line [] "eu-west-2";
                   "}"; nl; nl ]).
Proof.
  apply (management_name_case_mismatch "eu-west-2" "MANAGEMENT" "111111111111"
           "baseline" "git::baseline" "" [] [] fresh).
  - reflexivity.
  - discriminate.
  - reflexivity.
Defined.

(** X20. With no region or no account both generators write an empty file;
    the module generator then formats no variable, so a value that
    [format_value] cannot render raises nothing. *)
Theorem generators_without_targets
    (module_name module_source : string) (ids : odict.t string)
    (regions : list string) (variables : list variable)
    (dependencies : list string) (w : world) :
  regions = [] ∨ ids = [] →
  create_provider_code regions ids w
  = ("", write_to_file "" "terraform/provider.tf" w)
  ∧ create_module_code module_name module_source ids regions variables
      dependencies w
    = (Ok "", write_to_file "" ("terraform/" +:+ module_name +:+ ".tf") w).
Proof.
  intros [->| ->].
  - split; [by rewrite create_provider_code_blocks|done].
  - split.
    + by rewrite create_provider_code_blocks, provider_blocks_no_accounts.
    + unfold create_module_code, odict.items.
      by rewrite module_regions_no_accounts.
Qed.

Lemma generators_without_targets_witness :
  create_provider_code ["eu-west-2"] [] fresh
  = ("", write_to_file "" "terraform/provider.tf" fresh)
  ∧ create_module_code "baseline" "git::baseline" [] ["eu-west-2"]
      [Var "ports" (VList [VInt 80; VInt 443])] [] fresh
    = (Ok "", write_to_file "" ("terraform/" +:+ "baseline" +:+ ".tf") fresh).
Proof.
  apply (generators_without_targets "baseline" "git::baseline" [] ["eu-west-2"]
           [Var "ports" (VList [VInt 80; VInt 443])] [] fresh).
  by right.
Defined.

(** ** Dependencies, and requesting an excluded OU *)

(** X21. The dependency check passes exactly when every declared
    dependency is among the given module names; as [deploy_targets] checks
    against the names of all modules of the run, a module may depend on a
    later module and on itself. *)
Theorem validate_dependencies_spec
    (module_name : string) (dependencies all_modules : list string) :
  (validate_dependencies module_name dependencies all_modules = Ok tt
   ↔ ∀ d, d ∈ dependencies → d ∈ all_modules)
  ∧ (∀ pre post m,
       validate_dependencies (name m) [name m] (name <$> pre ++ m :: post)
       = Ok tt).
Proof.
  split.
  - split; [|apply validate_dependencies_known].
    intros Hok d Hd.
    destruct (decide (d ∈ all_modules)) as [|Hout]; [done|].
    destruct (validate_dependencies_missing module_name d dependencies
                all_modules Hd Hout) as [e He].
    congruence.
  - intros pre post m. apply validate_dependencies_known.
    intros d ->%list_elem_of_singleton.
    rewrite fmap_app, fmap_cons, elem_of_app. right. by left.
Qed.

(** X22. Requesting an OU path that the exclusion list names is no error:
    on the filtered tree the path is still a key, and it resolves to no
    account. *)
Theorem excluded_ou_resolves_to_nothing
    (tree : OrgTree) (excluded : list string) (ou : string) :
  NoDup (odict.keys tree) → ou ∈ odict.keys tree → ou ∈ excluded →
  account_ids_from_ou [ou] (filter_excluded_accounts tree excluded) = Ok [].
Proof.
  intros Hnd Hkey Hex. unfold account_ids_from_ou. simpl.
  rewrite filter_excluded_accounts_fmap by done.
  rewrite (get_fmap (λ k v, List.filter (kept k excluded) v)).
  destruct (odict.get ou tree) as [accounts|] eqn:Hou.
  - simpl. by rewrite kept_excluded_ou.
  - by apply get_None_keys in Hou.
Qed.

Lemma excluded_ou_resolves_to_nothing_witness :
  account_ids_from_ou ["Workloads/Pro"]
    (filter_excluded_accounts workloads_tree ["Workloads/Pro"])
  = Ok [].
Proof.
  apply (excluded_ou_resolves_to_nothing workloads_tree ["Workloads/Pro"]
           "Workloads/Pro").
  - apply (bool_decide_unpack _); vm_compute; exact I.
  - apply (bool_decide_unpack _); vm_compute; exact I.
  - apply (bool_decide_unpack _); vm_compute; exact I.
Defined.

(** X23. [create_module_code] in every case: with no region or no account
    it writes an empty file and formats no variable; otherwise it writes the
    blocks of all pairs when [format_value] renders every variable, and when
    it raises for one, that exception leaves the call before anything is
    written. *)
Theorem create_module_code_spec
    (module_name module_source : string) (deployment_account_ids : odict.t string)
    (regions : list string) (variables : list variable)
    (module_dependencies : list string) (w : world) :
  create_module_code module_name module_source deployment_account_ids regions
    variables module_dependencies w
  = match module_blocks module_name module_source deployment_account_ids
            regions variables module_dependencies with
    | Ok text =>
        (Ok text,
         write_to_file text ("terraform/" +:+ module_name +:+ ".tf") w)
    | Raise e => (Raise e, w)
    end.
Proof.
  unfold create_module_code, module_blocks, odict.items.
  destruct deployment_account_ids as [|item items].
  - rewrite module_regions_no_accounts. by destruct regions.
  - destruct (variable_lines variables) as [lines|e] eqn:Hlines.
    + rewrite (module_regions_ok _ _ _ _ lines) by done.
      destruct regions as [|region regions]; [done|]. done.
    + rewrite (module_regions_raise _ _ _ _ e) by done.
      by destruct regions.
Qed.
